(** * crypto-graph: the price-chart widget of [src/App.tsx]

    A shallow embedding of the pure parts of the [CryptoGraph] component
    ([getSuggestions], [fetchCryptoData], [downsampleData],
    [createSmoothPath], [formatCurrency]) together with the fragment of the
    ECMAScript runtime they rely on, followed by the properties the
    specification states about them.

    Modelling conventions.
    - A JavaScript [number] is an IEEE 754 binary64 value.  Finite values are
      carried as exact rationals; every arithmetic operation computes the
      exact result and rounds it to the nearest binary64 value, ties to even
      ([fl]), as ECMAScript prescribes.  Signed zero is not distinguished.
    - Array lengths and loop counters are integers below 2^32; they are
      carried as [nat]/[Z] and enter floating-point arithmetic through
      [Number_of_Z].
    - An array read [a[i]] yields a [slot]: the element, or [Undefined] when
      the index is out of range.
    - Strings are byte strings; [toLowerCase] folds the ASCII letters.
    - React state is a record; every [setX] call is a record update. *)

From Stdlib Require Import Floats Uint63.
From Stdlib Require Import ZArith QArith Qround Qabs Qpower Lia Lqa.
From Stdlib Require Import List String Ascii Bool Sorted Permutation.
From Stdlib Require Decimal DecimalString.
Import ListNotations.

Open Scope Q_scope.

(* ================================================================= *)
(** ** Binary64 rounding *)

(** [pow2 e] is 2^e for any integer exponent. *)
Definition pow2 (e : Z) : Q := Qpower 2 e.

(** Round a rational to the nearest integer, ties to the even one. *)
Definition rne (q : Q) : Z :=
  let f := Qfloor q in
  match Qcompare (q - inject_Z f) (1 # 2) with
  | Lt => f
  | Gt => (f + 1)%Z
  | Eq => if Z.even f then f else (f + 1)%Z
  end.

(** The relation [rne] computes: [z] is a nearest integer to [q], and when
    [q] is half-way between two integers [z] is the even one. *)
Definition rne_rel (q : Q) (z : Z) : Prop :=
  (q - inject_Z z < 1 # 2 /\ inject_Z z - q < 1 # 2) \/
  ((q - inject_Z z == 1 # 2 \/ inject_Z z - q == 1 # 2) /\ Z.even z = true).

(** [ilog2 q] is the integer part of the binary logarithm of [|q|], [q <> 0]. *)
Definition ilog2 (q : Q) : Z :=
  let k := (Z.log2 (Z.abs (Qnum q)) - Z.log2 (Zpos (Qden q)))%Z in
  if Qle_bool (pow2 k) (Qabs q) then k else (k - 1)%Z.

(** Exponent of the least binary64 subnormal. *)
Definition emin : Z := -1074.

(** Exponent of the unit in the last place of the binary64 format at [q]:
    53 significant bits, clamped at the subnormal exponent. *)
Definition fexp (q : Q) : Z := Z.max (ilog2 q - 52) emin.

(** Round to nearest binary64 (unbounded exponent range above). *)
Definition fl (q : Q) : Q :=
  if Qeq_bool q 0 then 0
  else Qred (inject_Z (rne (q / pow2 (fexp q))) * pow2 (fexp q)).

(* ================================================================= *)
(** ** ECMAScript numbers *)

Inductive number : Type :=
| NaN
| Infinity (negative : bool)
| Fin (q : Q).

Definition Qneg (q : Q) : bool := negb (Qle_bool 0 q).
Definition Qzero (q : Q) : bool := Qeq_bool q 0.

(** The Number value for an exact result: rounded, overflowing to infinity. *)
Definition Number_round (q : Q) : number :=
  let r := fl q in
  if Qle_bool (pow2 1024) (Qabs r) then Infinity (Qneg q) else Fin r.

(** A decimal literal of the source text denotes the nearest binary64. *)
Definition literal (q : Q) : number := Number_round q.

Definition Number_of_Z (z : Z) : number := Fin (inject_Z z).

Definition num_neg (a : number) : number :=
  match a with
  | NaN => NaN
  | Infinity s => Infinity (negb s)
  | Fin q => Fin (- q)
  end.

Definition num_add (a b : number) : number :=
  match a, b with
  | NaN, _ | _, NaN => NaN
  | Infinity s, Infinity s' => if Bool.eqb s s' then Infinity s else NaN
  | Infinity s, Fin _ | Fin _, Infinity s => Infinity s
  | Fin x, Fin y => Number_round (x + y)
  end.

Definition num_sub (a b : number) : number := num_add a (num_neg b).

Definition num_mul (a b : number) : number :=
  match a, b with
  | NaN, _ | _, NaN => NaN
  | Infinity s, Infinity s' => Infinity (xorb s s')
  | Infinity s, Fin q | Fin q, Infinity s =>
      if Qzero q then NaN else Infinity (xorb s (Qneg q))
  | Fin x, Fin y => Number_round (x * y)
  end.

(** [a / b].  The model has one zero, read as [+0]: a non-zero [x] divided
    by zero gives the infinity of the sign of [x] (with a divisor [-0] the
    code gives the other infinity, so no property below rests on that
    sign). *)
Definition num_div (a b : number) : number :=
  match a, b with
  | NaN, _ | _, NaN => NaN
  | Infinity _, Infinity _ => NaN
  | Infinity s, Fin q => Infinity (xorb s (Qneg q))
  | Fin _, Infinity _ => Fin 0
  | Fin x, Fin y =>
      if Qzero y then (if Qzero x then NaN else Infinity (Qneg x))
      else Number_round (x / y)
  end.

(** [a >= b]; every comparison with [NaN] is false. *)
Definition num_ge (a b : number) : bool :=
  match a, b with
  | NaN, _ | _, NaN => false
  | Infinity false, _ => true
  | Infinity true, Infinity true => true
  | Infinity true, _ => false
  | Fin _, Infinity s => s
  | Fin x, Fin y => Qle_bool y x
  end.

Definition Math_floor (a : number) : number :=
  match a with
  | Fin q => Fin (inject_Z (Qfloor q))
  | _ => a
  end.

(** [Math.round]: nearest integer, ties towards +infinity. *)
Definition Math_round (a : number) : number :=
  match a with
  | Fin q => Fin (inject_Z (Qfloor (q + (1 # 2))))
  | _ => a
  end.

(** The rational value of a finite primitive float of the kernel, used to
    compare [fl] with the hardware arithmetic on sample inputs. *)
Definition Q_of_float (f : PrimFloat.float) : option Q :=
  match FloatOps.Prim2SF f with
  | SpecFloat.S754_zero _ => Some 0
  | SpecFloat.S754_finite s m e =>
      Some (Qred (inject_Z (if s then Z.neg m else Z.pos m) * pow2 e))
  | _ => None
  end.

(* ================================================================= *)
(** ** Strings *)

Open Scope string_scope.

Definition lower_ascii (c : ascii) : ascii :=
  let n := nat_of_ascii c in
  if (65 <=? n)%nat && (n <=? 90)%nat then ascii_of_nat (n + 32) else c.

Fixpoint toLowerCase (s : string) : string :=
  match s with
  | EmptyString => EmptyString
  | String c s' => String (lower_ascii c) (toLowerCase s')
  end.

(** [s.includes(sub)]. *)
Fixpoint includes (s sub : string) : bool :=
  if prefix sub s then true
  else match s with
       | EmptyString => false
       | String _ s' => includes s' sub
       end.


(** Decimal digits of a natural number, ["0"] for zero. *)
Definition digits (n : N) : string :=
  DecimalString.NilZero.string_of_uint (N.to_uint n).

Fixpoint zeros (k : nat) : string :=
  match k with
  | O => EmptyString
  | S k' => String "0" (zeros k')
  end.

Fixpoint take (k : nat) (s : string) : string :=
  match k, s with
  | S k', String c s' => String c (take k' s')
  | _, _ => EmptyString
  end.

Fixpoint drop (k : nat) (s : string) : string :=
  match k, s with
  | S k', String _ s' => drop k' s'
  | _, _ => s
  end.

(** Insert a comma before every group of three digits counted from the
    right (en-US grouping). *)
Fixpoint group3 (s : string) : string :=
  match s with
  | EmptyString => EmptyString
  | String c s' =>
      let n := String.length s' in
      if (0 <? n)%nat && (n mod 3 =? 0)%nat
      then String c (String "," (group3 s'))
      else String c (group3 s')
  end.

(* ================================================================= *)
(** ** Arrays *)

(** The outcome of an array read. *)
Inductive slot (A : Type) : Type :=
| Undefined
| Elem (a : A).
Arguments Undefined {A}.
Arguments Elem {A} a.

(** [data[i]] for an integer index. *)
Definition array_get {A : Type} (data : list A) (i : Z) : slot A :=
  if (i <? 0)%Z then Undefined
  else match nth_error data (Z.to_nat i) with
       | Some a => Elem a
       | None => Undefined
       end.

(** [data[x]] for a Number-valued index: only a non-negative integer value
    names an element. *)
Definition array_get_num {A : Type} (data : list A) (x : number) : slot A :=
  match x with
  | Fin q => if Qeq_bool q (inject_Z (Qfloor q)) then array_get data (Qfloor q)
             else Undefined
  | _ => Undefined
  end.

(** ECMAScript bounds the length of an array by 2^32 - 1. *)
Definition MAX_ARRAY_LENGTH : Z := 2 ^ 32 - 1.

(** [a.slice(0, end)]: a negative [end] counts from the end of the array. *)
Definition Array_slice0 {A : Type} (l : list A) (end_ : Z) : list A :=
  let len := Z.of_nat (List.length l) in
  let k := if (end_ <? 0)%Z then Z.max (len + end_) 0 else Z.min end_ len in
  firstn (Z.to_nat k) l.

(** [Array.prototype.sort] with a comparator: a stable sort (ES2019);
    [x] is placed before [y] when [cmp x y <= 0]. *)
Fixpoint sort_insert {A : Type} (cmp : A -> A -> Z) (x : A) (l : list A) : list A :=
  match l with
  | [] => [x]
  | y :: l' => if (cmp x y <=? 0)%Z then x :: y :: l' else y :: sort_insert cmp x l'
  end.

Definition Array_sort {A : Type} (cmp : A -> A -> Z) (l : list A) : list A :=
  fold_right (sort_insert cmp) [] l.

(** [Math.min] of three lengths. *)
Definition Math_min3 (a b c : nat) : Z :=
  Z.min (Z.of_nat a) (Z.min (Z.of_nat b) (Z.of_nat c)).

(** The loop [for (let i = lo; i < hi; i++)] visits these values of [i]. *)
Definition Zrange (lo hi : Z) : list Z :=
  map (fun k => (lo + Z.of_nat k)%Z) (seq 0 (Z.to_nat (hi - lo))).

(* ================================================================= *)
(** ** Suggestion matcher: [getSuggestions] *)

Record CoinInfo : Type := { id : string; symbol : string; name : string }.

(** The filter predicate of [getSuggestions]. *)
Definition coin_matches (lowerInput : string) (coin : CoinInfo) : bool :=
  includes (toLowerCase (id coin)) lowerInput
  || includes (toLowerCase (symbol coin)) lowerInput
  || includes (toLowerCase (name coin)) lowerInput.

(** The ranking key: the shortest of the three field lengths. *)
Definition rank (c : CoinInfo) : Z :=
  Math_min3 (String.length (id c)) (String.length (symbol c)) (String.length (name c)).

(** The comparator passed to [sort]. *)
Definition compare_coins (a b : CoinInfo) : Z := (rank a - rank b)%Z.

Definition DEFAULT_MAX : Z := 5.

Definition getSuggestions (input : string) (coins : list CoinInfo) (max : Z)
  : list CoinInfo :=
  if String.eqb input "" then []
  else
    let lowerInput := toLowerCase input in
    let matches := filter (coin_matches lowerInput) coins in
    let matches := Array_sort compare_coins matches in
    Array_slice0 matches max.

(* ================================================================= *)
(** ** Range fetcher: [fetchCryptoData] *)

Record CryptoData : Type := { prices : list (number * number) }.

(** A [Date] object, observed through [getTime()] (milliseconds). *)
Record Date : Type := { getTime : number }.

(** The hooks of the [CryptoGraph] component. *)
Record State : Type := {
  startDate : option Date;
  endDate : option Date;
  cryptoName : string;
  graphData : option CryptoData;
  allCoins : list CoinInfo;
  suggestions : list CoinInfo;
  error : option string;
  gridLineCount : Z
}.

(** State-passing computations over the component state. *)
Definition Hook (A : Type) : Type := State -> A * State.

Definition ret {A : Type} (a : A) : Hook A := fun st => (a, st).
Definition bind {A B : Type} (m : Hook A) (k : A -> Hook B) : Hook B :=
  fun st => let (a, st') := m st in k a st'.
Definition exec {A : Type} (m : Hook A) (st : State) : State := snd (m st).

Notation "m ;; k" := (bind m (fun _ => k))
  (at level 61, right associativity).

Definition setError (e : option string) : Hook unit :=
  fun st => (tt, {| startDate := startDate st; endDate := endDate st;
                    cryptoName := cryptoName st; graphData := graphData st;
                    allCoins := allCoins st; suggestions := suggestions st;
                    error := e; gridLineCount := gridLineCount st |}).

Definition setSuggestions (s : list CoinInfo) : Hook unit :=
  fun st => (tt, {| startDate := startDate st; endDate := endDate st;
                    cryptoName := cryptoName st; graphData := graphData st;
                    allCoins := allCoins st; suggestions := s;
                    error := error st; gridLineCount := gridLineCount st |}).

Definition setGraphData (g : option CryptoData) : Hook unit :=
  fun st => (tt, {| startDate := startDate st; endDate := endDate st;
                    cryptoName := cryptoName st; graphData := g;
                    allCoins := allCoins st; suggestions := suggestions st;
                    error := error st; gridLineCount := gridLineCount st |}).

(** The GET request of [fetchCryptoData]. *)
Record Request : Type := {
  url : string;
  vs_currency : string;
  from : number;
  to : number
}.

(** How the awaited promise settles. *)
Inductive Response : Type :=
| Resolved (data : CryptoData)
| Rejected.

Definition FETCH_ERROR : string :=
  "Token not found or API error. Please check the name or try a suggestion.".

(** The request issued for coin [name] over the range [sd .. ed]:
    the bounds are whole Unix seconds. *)
Definition range_request (name : string) (sd ed : Date) : Request :=
  {| url := "https://api.coingecko.com/api/v3/coins/"
            ++ toLowerCase name ++ "/market_chart/range";
     vs_currency := "usd";
     from := Math_floor (num_div (getTime sd) (literal 1000));
     to := Math_floor (num_div (getTime ed) (literal 1000)) |}.

(** [fetchCryptoData], run against a network that settles the request as
    [axios_get] says.  The closure reads [cryptoName] and [allCoins] of the
    render in which the handler was created, that is of the state [st0] in
    which it is invoked. *)
Definition fetchCryptoData (axios_get : Request -> Response) : Hook unit :=
  fun st0 =>
    match startDate st0, endDate st0 with
    | Some sd, Some ed =>
        if String.eqb (cryptoName st0) "" then ret tt st0
        else
          (setError None ;;
           setSuggestions [] ;;
           setGraphData None ;;
           match axios_get (range_request (cryptoName st0) sd ed) with
           | Resolved data => setGraphData (Some data)
           | Rejected =>
               setError (Some FETCH_ERROR) ;;
               setSuggestions (getSuggestions (cryptoName st0) (allCoins st0)
                                 DEFAULT_MAX)
           end) st0
    | _, _ => ret tt st0
    end.

(** The three required inputs of the range fetcher. *)
Definition inputs_present (st : State) : bool :=
  match startDate st, endDate st with
  | Some _, Some _ => negb (String.eqb (cryptoName st) "")
  | _, _ => false
  end.

(** The directory of the specification's example. *)
Definition bitcoin : CoinInfo :=
  {| id := "bitcoin"; symbol := "btc"; name := "Bitcoin" |}.
Definition bitcoin_cash : CoinInfo :=
  {| id := "bitcoin-cash"; symbol := "bch"; name := "Bitcoin Cash" |}.

(* ================================================================= *)
(** ** Downsampling: [downsampleData] *)

Definition DEFAULT_TARGET_POINTS : Z := 75.

Section Downsample.
Context {A : Type}.
Variable data : list A.

Definition data_length : Z := Z.of_nat (List.length data).

(** [const step = data.length / targetPoints]. *)
Definition downsample_step (targetPoints : Z) : number :=
  num_div (Number_of_Z data_length) (Number_of_Z targetPoints).

(** [Math.floor(i * step)]. *)
Definition downsample_index (step : number) (i : Z) : number :=
  Math_floor (num_mul (Number_of_Z i) step).

(** One iteration of the loop: [result.push(data[index])]. *)
Definition downsample_body (step : number) (result : list (slot A)) (i : Z)
  : list (slot A) :=
  (result ++ [array_get_num data (downsample_index step i)])%list.

Definition downsampleData (targetPoints : Z) : list (slot A) :=
  if (data_length <=? targetPoints)%Z then map Elem data
  else
    let step := downsample_step targetPoints in
    let result := [array_get data 0] in
    let result :=
      fold_left (downsample_body step) (Zrange 1 (targetPoints - 1)) result in
    (result ++ [array_get data (data_length - 1)])%list.
End Downsample.

(** The value of [Math.floor(i * (n / t))] as an integer, for a series of
    length [n] and a budget [t]: both operations round to binary64. *)
Definition sample_index (n t i : Z) : Z :=
  Qfloor (fl (inject_Z i * fl (inject_Z n / inject_Z t))).

(** The indices read by [downsampleData] on a series of length [n]. *)
Definition sample_indices (n t : Z) : list Z :=
  (0 :: map (sample_index n t) (Zrange 1 (t - 1)) ++ [n - 1])%list%Z.

(** The same index computed with the primitive floats of the kernel. *)
Definition float_of_Z (z : Z) : PrimFloat.float :=
  PrimFloat.of_uint63 (Uint63.of_Z z).

Definition prim_sample_index (n t i : Z) : option Z :=
  option_map Qfloor
    (Q_of_float (PrimFloat.mul (float_of_Z i)
                               (PrimFloat.div (float_of_Z n) (float_of_Z t)))).

(** Do [sample_index] and [prim_sample_index] agree on every interior [i]? *)
Definition indices_agree (t n : Z) : bool :=
  forallb (fun i => match prim_sample_index n t i with
                    | Some z => Z.eqb z (sample_index n t i)
                    | None => false
                    end)
          (Zrange 1 (t - 1)).

(* ================================================================= *)
(** ** Number formatting and path rendering *)

Record Point : Type := { x : number; y : number }.

(** Tension of the curve: the literal [0.2]. *)
Definition tension : number := literal (2 # 10).

(** The two control points and the end point of one cubic segment. *)
Record Segment : Type := { cp1 : Point; cp2 : Point; endpoint : Point }.

(** The segment drawn from [p1] to [p2] with neighbours [p0] and [p3]. *)
Definition segment_of (p0 p1 p2 p3 : Point) : Segment :=
  {| cp1 := {| x := num_add (x p1) (num_mul (num_sub (x p2) (x p0)) tension);
               y := num_add (y p1) (num_mul (num_sub (y p2) (y p0)) tension) |};
     cp2 := {| x := num_sub (x p2) (num_mul (num_sub (x p3) (x p1)) tension);
               y := num_sub (y p2) (num_mul (num_sub (y p3) (y p1)) tension) |};
     endpoint := p2 |}.

(** U+221E in UTF-8, the en-US rendering of an infinite value. *)
Definition infinity_sign : string :=
  String (ascii_of_nat 226) (String (ascii_of_nat 136)
    (String (ascii_of_nat 158) EmptyString)).

Fixpoint strip_zeros_rev (s : list ascii) : list ascii :=
  match s with
  | c :: s' => if Ascii.eqb c "0" then strip_zeros_rev s' else s
  | [] => []
  end.

(** Drop the trailing zeros of a digit string. *)
Definition strip_trailing_zeros (s : string) : string :=
  string_of_list_ascii (rev (strip_zeros_rev (rev (list_ascii_of_string s)))).

(** [x.toLocaleString()] in the en-US locale with the default options:
    grouped integer part, at most three fraction digits, half-way cases
    rounded away from zero. *)
Definition toLocaleString (v : number) : string :=
  match v with
  | NaN => "NaN"
  | Infinity s => (if s then "-" else "") ++ infinity_sign
  | Fin q =>
      let s := if Qneg q then "-" else "" in
      let n := Z.to_N (Qfloor (Qabs q * 1000 + (1 # 2))) in
      let ip := (n / 1000)%N in
      let fp := (n mod 1000)%N in
      let frac := digits fp in
      let frac := zeros (3 - String.length frac) ++ frac in
      s ++ group3 (digits ip)
        ++ (if (fp =? 0)%N then "" else "." ++ strip_trailing_zeros frac)
  end.

(** "[v] with [f] decimals": [s] is an integer part of at least one digit,
    a point and exactly [f] fraction digits, and its digits are those of
    the integer nearest to [v * 10^f] (half-way cases upwards), padded with
    leading zeros where that integer is short. *)
Definition fixed_decimals (v : Q) (f : nat) (s : string) : Prop :=
  exists (a b : string) (pad : nat),
    s = a ++ "." ++ b
    /\ String.length b = f /\ (1 <= String.length a)%nat
    /\ a ++ b = zeros pad
                ++ digits (Z.to_N (Qfloor (v * inject_Z (10 ^ Z.of_nat f) + (1 # 2)))).

(** Concatenation of a list of strings. *)
Definition join (l : list string) : string := fold_right append "" l.

(** The neighbours of segment [i] with the boundary points repeated at the
    two ends of the series: [points[max(i-1, 0)]] and
    [points[min(i+2, n-1)]]. *)
Definition clamped_segment (points : list Point) (d : Point) (i : nat) : Segment :=
  segment_of (nth (i - 1) points d) (nth i points d) (nth (i + 1) points d)
             (nth (Nat.min (i + 2) (List.length points - 1)) points d).

Section Rendering.
(** [Number::toString] on a finite value (the shortest decimal that reads
    back as the same binary64); the platform's, left abstract. *)
Variable show_finite : Q -> string.

(** [String(v)], as performed by a template literal. *)
Definition Number_toString (v : number) : string :=
  match v with
  | NaN => "NaN"
  | Infinity false => "Infinity"
  | Infinity true => "-Infinity"
  | Fin q => show_finite q
  end.

(** [v.toFixed(f)] for [0 <= f <= 100]. *)
Definition toFixed (v : number) (f : nat) : string :=
  match v with
  | Fin q =>
      let s := if Qneg q then "-" else "" in
      let a := Qabs q in
      if Qle_bool (inject_Z (10 ^ 21)) a then s ++ show_finite a
      else
        let n := Qfloor (a * inject_Z (10 ^ Z.of_nat f) + (1 # 2)) in
        let m := digits (Z.to_N n) in
        let m :=
          if (f =? 0)%nat then m
          else
            let k := String.length m in
            let m := if (k <=? f)%nat then zeros (f + 1 - k) ++ m else m in
            let k := String.length m in
            take (k - f) m ++ "." ++ drop (k - f) m in
        s ++ m
  | _ => Number_toString v
  end.

Definition formatCurrency (value : number) : string :=
  if num_ge value (literal 1000000) then
    "$" ++ toFixed (num_div value (literal 1000000)) 2 ++ "M"
  else if num_ge value (literal 10000) then
    "$" ++ toLocaleString (Math_round value)
  else if num_ge value (literal 1) then
    "$" ++ toFixed value 2
  else
    "$" ++ toFixed value 5.

(** The text of a point, ["x y"]. *)
Definition point_text (p : Point) : string :=
  Number_toString (x p) ++ " " ++ Number_toString (y p).

Definition move_to (p : Point) : string := "M " ++ point_text p.

Definition curve_to (s : Segment) : string :=
  " C " ++ point_text (cp1 s) ++ ", " ++ point_text (cp2 s) ++ ", "
        ++ point_text (endpoint s).

(** One iteration of the loop of [createSmoothPath].  [None] stands for
    the [TypeError] raised by a property read on [undefined]. *)
Definition smooth_body (points : list Point) (acc : option string) (i : nat)
  : option string :=
  match acc with
  | None => None
  | Some path =>
      match (if (0 <? i)%nat then nth_error points (i - 1)
             else nth_error points 0),
            nth_error points i,
            nth_error points (i + 1) with
      | Some p0, Some p1, Some p2 =>
          match (if (Z.of_nat i <? Z.of_nat (List.length points) - 2)%Z
                 then nth_error points (i + 2) else Some p2) with
          | Some p3 => Some (path ++ curve_to (segment_of p0 p1 p2 p3))
          | None => None
          end
      | _, _, _ => None
      end
  end.

Definition createSmoothPath (points : list Point) : option string :=
  if (List.length points <? 2)%nat then Some ""
  else
    match nth_error points 0 with
    | Some first =>
        fold_left (smooth_body points)
          (seq 0 (List.length points - 1)) (Some (move_to first))
    | None => None
    end.
End Rendering.

Open Scope Q_scope.
Open Scope string_scope.

(* ================================================================= *)
(** ** The coin directory and the matcher *)

(** [setAllCoins(l)]. *)
Definition setAllCoins (l : list CoinInfo) : Hook unit :=
  fun st => (tt, {| startDate := startDate st; endDate := endDate st;
                    cryptoName := cryptoName st; graphData := graphData st;
                    allCoins := l; suggestions := suggestions st;
                    error := error st; gridLineCount := gridLineCount st |}).

(** The effect run on mount, once the request for the coin list has
    settled: [.then(res => setAllCoins(res.data))] or
    [.catch(() => setAllCoins([]))]. *)
Definition loadCoinList (settled : option (list CoinInfo)) : Hook unit :=
  match settled with
  | Some data => setAllCoins data
  | None => setAllCoins []
  end.

(** The largest time value of a [Date], in milliseconds. *)
Definition MAX_TIME : Z := 8640000000000000.

(** The coins that pass the filter of [getSuggestions], in directory
    order. *)
Definition matching_coins (input : string) (coins : list CoinInfo) : list CoinInfo :=
  filter (coin_matches (toLowerCase input)) coins.

(** [q] is the value of a binary64 number, in lowest terms: what every
    Number produced by a literal, by parsing or by an operation is. *)
Definition binary64 (q : Q) : Prop := Number_round q = Fin q.

(* ================================================================= *)
(** ** Chart geometry: [renderGraph] *)

(** [toUpperCase] on the ASCII letters. *)
Definition upper_ascii (c : ascii) : ascii :=
  let n := nat_of_ascii c in
  if (97 <=? n)%nat && (n <=? 122)%nat then ascii_of_nat (n - 32) else c.

Fixpoint toUpperCase (s : string) : string :=
  match s with
  | EmptyString => EmptyString
  | String c s' => String (upper_ascii c) (toUpperCase s')
  end.

(** [Math.min] and [Math.max] of an argument list: [NaN] as soon as one
    argument is [NaN], the infinities for no argument. *)
Definition Math_min2 (a b : number) : number :=
  match a, b with
  | NaN, _ | _, NaN => NaN
  | _, _ => if num_ge a b then b else a
  end.

Definition Math_max2 (a b : number) : number :=
  match a, b with
  | NaN, _ | _, NaN => NaN
  | _, _ => if num_ge a b then a else b
  end.

Definition Math_min (l : list number) : number :=
  fold_left Math_min2 l (Infinity false).

Definition Math_max (l : list number) : number :=
  fold_left Math_max2 l (Infinity true).

(** [a.map((v, i) => f(v, i))]. *)
Fixpoint map_indexed {A B : Type} (f : A -> Z -> B) (i : Z) (l : list A) : list B :=
  match l with
  | [] => []
  | a :: l' => f a i :: map_indexed f (i + 1)%Z l'
  end.

(** The elements of an array none of whose slots is [undefined]. *)
Fixpoint defined_all {A : Type} (l : list (slot A)) : option (list A) :=
  match l with
  | [] => Some []
  | Undefined :: _ => None
  | Elem a :: l' =>
      match defined_all l' with
      | Some r => Some (a :: r)
      | None => None
      end
  end.

Definition width : number := literal 400.
Definition height : number := literal 450.

Module Padding.
Record t : Type := {
  top : number; right : number; bottom : number; left : number
}.
End Padding.

Definition padding : Padding.t :=
  {| Padding.top := literal 60; Padding.right := literal 80;
     Padding.bottom := literal 40; Padding.left := literal 40 |}.

(** [xScale] for [m] sampled points. *)
Definition x_scale (m : nat) : number :=
  num_div (num_sub (num_sub width (Padding.left padding)) (Padding.right padding))
          (Number_of_Z (Z.of_nat m - 1)).

(** [padding.left + i * xScale]. *)
Definition point_x (xScale : number) (i : Z) : number :=
  num_add (Padding.left padding) (num_mul (Number_of_Z i) xScale).

(** [height - padding.bottom - (v - yMin) * yScale]. *)
Definition point_y (yMin yScale v : number) : number :=
  num_sub (num_sub height (Padding.bottom padding))
          (num_mul (num_sub v yMin) yScale).

Module PricePoint.
Record t : Type := { value : number; y : number }.
End PricePoint.

(** The price levels of the grid, highest first. *)
Definition price_points (yMin yMax yScale : number) (priceMarkers : Z)
  : list PricePoint.t :=
  map (fun i =>
         let value :=
           num_add yMin
             (num_div (num_mul (num_sub yMax yMin)
                               (Number_of_Z (priceMarkers - 1 - i)))
                      (Number_of_Z (priceMarkers - 1))) in
         {| PricePoint.value := value;
            PricePoint.y := point_y yMin yScale value |})
      (Zrange 0 priceMarkers).

(** What [renderGraph] computes for the SVG it returns. *)
Record Chart : Type := {
  sampledPrices : list (number * number);
  xScale : number;
  yMin : number;
  yMax : number;
  yScale : number;
  points : list Point;
  smoothPath : string;
  pricePoints : list PricePoint.t;
  finalLabel : string;
  priceLabels : list string;
  title : option string;
  percentChange : option string
}.

(** [renderGraph()] returns [null], returns the chart, or raises. *)
Inductive Rendered : Type :=
| RenderNull
| RenderError
| RenderChart (c : Chart).

Section RenderGraph.
Variable show_finite : Q -> string.

(** [((last / first - 1) * 100).toFixed(2)] followed by ["%"]. *)
Definition percent_text (first last : number) : string :=
  toFixed show_finite
    (num_mul (num_sub (num_div last first) (literal 1)) (literal 100)) 2
  ++ "%".

Definition renderGraph (st : State) : Rendered :=
  match graphData st with
  | None => RenderNull
  | Some g =>
      match prices g with
      | [] => RenderNull
      | p0 :: _ =>
          match defined_all (downsampleData (prices g) DEFAULT_TARGET_POINTS) with
          | None => RenderError
          | Some sampled =>
              let xScale := x_scale (List.length sampled) in
              let yMin := Math_min (map snd sampled) in
              let yMax := Math_max (map snd sampled) in
              let yScale :=
                num_div (num_sub (num_sub height (Padding.top padding)) (Padding.bottom padding))
                        (num_sub yMax yMin) in
              let points :=
                map_indexed (fun price i =>
                               {| x := point_x xScale i;
                                  y := point_y yMin yScale (snd price) |})
                            0%Z sampled in
              match createSmoothPath show_finite points with
              | None => RenderError
              | Some smoothPath =>
                  let pricePoints :=
                    price_points yMin yMax yScale (gridLineCount st) in
                  RenderChart
                    {| sampledPrices := sampled;
                       xScale := xScale; yMin := yMin; yMax := yMax;
                       yScale := yScale;
                       points := points;
                       smoothPath := smoothPath;
                       pricePoints := pricePoints;
                       finalLabel :=
                         formatCurrency show_finite (snd (last sampled p0));
                       priceLabels :=
                         map (fun p => formatCurrency show_finite
                                         (PricePoint.value p)) pricePoints;
                       title :=
                         if String.eqb (cryptoName st) "" then None
                         else Some (toUpperCase (cryptoName st));
                       percentChange :=
                         if String.eqb (cryptoName st) "" then None
                         else if (1 <? List.length (prices g))%nat
                              then Some (percent_text (snd p0)
                                           (snd (last (prices g) p0)))
                              else None |}
              end
          end
      end
  end.
End RenderGraph.

(** The x-coordinates of a chart of [m] sampled points. *)
Definition chart_xs (m : nat) : list number :=
  map (fun i => point_x (x_scale m) (Z.of_nat i)) (seq 0 m).

(** The rational values of a list of finite numbers. *)
Fixpoint finite_values (l : list number) : option (list Q) :=
  match l with
  | [] => Some []
  | Fin q :: l' =>
      match finite_values l' with
      | Some r => Some (q :: r)
      | None => None
      end
  | _ :: _ => None
  end.

Definition Q_same (a b : Q) : bool :=
  Z.eqb (Qnum a) (Qnum b) && Pos.eqb (Qden a) (Qden b).

Fixpoint increasing (l : list Q) : bool :=
  match l with
  | a :: ((b :: _) as l') => negb (Qle_bool b a) && increasing l'
  | _ => true
  end.

(** Do the x-coordinates for [m] points run from 40 to 320, increasing? *)
Definition chart_xs_ok (m : nat) : bool :=
  match finite_values (chart_xs m) with
  | Some qs =>
      match qs with
      | q0 :: _ => Q_same q0 40 && Q_same (last qs 0) 320 && increasing qs
      | [] => false
      end
  | None => false
  end.

(* ================================================================= *)
(** ** The date ticks of the first chart (an earlier revision of
    [renderGraph]) *)

Definition xTicks : Z := 5.

(** [Math.round(i * (prices.length - 1) / (xTicks - 1))]. *)
Definition xTickIdx (n i : Z) : number :=
  Math_round (num_div (num_mul (Number_of_Z i) (Number_of_Z (n - 1)))
                      (Number_of_Z (xTicks - 1))).

(** [Array.from({ length: xTicks }, (_, i) => ...)]. *)
Definition xTickIdxs (n : Z) : list number := map (xTickIdx n) (Zrange 0 xTicks).

Open Scope Q_scope.

(* ================================================================= *)
(** * Properties *)

(** ** Rounding to the nearest integer *)

Lemma Qfloor_bounds (q : Q) : inject_Z (Qfloor q) <= q /\ q < inject_Z (Qfloor q) + 1.
Proof.
  split; [apply Qfloor_le|].
  pose proof (Qlt_floor q) as H. rewrite inject_Z_plus in H. exact H.
Qed.

Lemma inject_Z_lt_1 (a b : Z) : inject_Z a < inject_Z b + 1 -> (a <= b)%Z.
Proof.
  intros H. change 1 with (inject_Z 1) in H. rewrite <- inject_Z_plus in H.
  rewrite <- Zlt_Qlt in H. lia.
Qed.

Lemma rne_spec (q : Q) : rne_rel q (rne q).
Proof.
  unfold rne_rel, rne. destruct (Qfloor_bounds q) as [Hl Hu].
  destruct (Qcompare (q - inject_Z (Qfloor q)) (1#2)) eqn:Hc.
  - apply Qeq_alt in Hc. destruct (Z.even (Qfloor q)) eqn:He.
    + right. split; [left; exact Hc| exact He].
    + right. split.
      * right. rewrite inject_Z_plus. change (inject_Z 1) with 1. lra.
      * rewrite Z.even_add, He. reflexivity.
  - apply Qlt_alt in Hc. left. split; lra.
  - apply Qgt_alt in Hc. left. rewrite inject_Z_plus. change (inject_Z 1) with 1.
    split; lra.
Qed.

Lemma rne_rel_unique (q : Q) (z z' : Z) : rne_rel q z -> rne_rel q z' -> z = z'.
Proof.
  unfold rne_rel. intros H H'.
  assert (Hd : (z <= z' + 1 /\ z' <= z + 1)%Z).
  { split; apply inject_Z_lt_1; rewrite inject_Z_plus; change (inject_Z 1) with 1;
    destruct H as [[? ?]|[[?|?] _]]; destruct H' as [[? ?]|[[?|?] _]]; lra. }
  destruct (Z.eq_dec z z') as [|Hne]; [assumption|exfalso].
  assert (Hz : (z = z' + 1 \/ z' = z + 1)%Z) by lia.
  destruct Hz as [Hz|Hz]; rewrite Hz in *; clear Hz;
    rewrite inject_Z_plus in *; change (inject_Z 1) with 1 in *;
    destruct H as [[? ?]|[[?|?] He]]; destruct H' as [[? ?]|[[?|?] He']];
    try lra; rewrite Z.even_add in *; simpl in *;
    destruct (Z.even z); destruct (Z.even z'); discriminate.
Qed.

Lemma rne_unique (q : Q) (z : Z) : rne_rel q z -> rne q = z.
Proof. intros H. apply (rne_rel_unique q); [apply rne_spec|exact H]. Qed.

Lemma rne_bounds (q : Q) : q - (1#2) <= inject_Z (rne q) /\ inject_Z (rne q) <= q + (1#2).
Proof. destruct (rne_spec q) as [[? ?]|[[?|?] _]]; split; lra. Qed.

Lemma rne_comp (q q' : Q) : q == q' -> rne q = rne q'.
Proof.
  intros E. apply rne_unique. pose proof (rne_spec q') as H. unfold rne_rel in *.
  rewrite E. exact H.
Qed.

Lemma rne_inject_Z (z : Z) : rne (inject_Z z) = z.
Proof. apply rne_unique. left. split; lra. Qed.

Lemma rne_near (q : Q) (z : Z) :
  q - inject_Z z < 1#2 -> inject_Z z - q < 1#2 -> rne q = z.
Proof. intros. apply rne_unique. left. split; assumption. Qed.

Lemma rne_mono (q q' : Q) : q <= q' -> (rne q <= rne q')%Z.
Proof.
  intros Hle. destruct (Z_le_gt_dec (rne q) (rne q')) as [|Hgt]; [assumption|exfalso].
  assert (Hq : inject_Z (rne q') + 1 <= inject_Z (rne q)).
  { change 1 with (inject_Z 1). rewrite <- inject_Z_plus, <- Zle_Qle. lia. }
  pose proof (rne_spec q) as H. pose proof (rne_spec q') as H'. unfold rne_rel in *.
  destruct H as [[? ?]|[[?|?] He]]; destruct H' as [[? ?]|[[?|?] He']]; try lra.
  assert (Hz : rne q = (rne q' + 1)%Z).
  { apply Z.le_antisymm; [|lia]. apply inject_Z_lt_1.
    rewrite inject_Z_plus. change (inject_Z 1) with 1. lra. }
  rewrite Hz, Z.even_add, He' in He. discriminate.
Qed.

Lemma rne_add_even (q : Q) (m : Z) : rne (q + inject_Z (2 * m)) = (rne q + 2 * m)%Z.
Proof.
  apply rne_unique. pose proof (rne_spec q) as H. unfold rne_rel in *.
  rewrite inject_Z_plus.
  destruct H as [[? ?]|[[?|?] He]].
  - left. split; lra.
  - right. split; [left; lra|]. rewrite Z.even_add, He, Z.even_mul. reflexivity.
  - right. split; [right; lra|]. rewrite Z.even_add, He, Z.even_mul. reflexivity.
Qed.

(** ** Powers of two and the binary logarithm *)

Lemma pow2_pos (e : Z) : 0 < pow2 e.
Proof. apply Qpower_0_lt. reflexivity. Qed.

Lemma pow2_add (a b : Z) : pow2 (a + b) == pow2 a * pow2 b.
Proof. apply Qpower_plus. discriminate. Qed.

Lemma pow2_succ (e : Z) : pow2 (e + 1) == 2 * pow2 e.
Proof. rewrite pow2_add. change (pow2 1) with 2. ring. Qed.

Lemma pow2_mono (a b : Z) : (a <= b)%Z -> pow2 a <= pow2 b.
Proof. intros. apply Qpower_le_compat_l; [assumption|discriminate]. Qed.

Lemma pow2_lt_inv (a b : Z) : pow2 a < pow2 b -> (a < b)%Z.
Proof. intros. apply (Qpower_lt_compat_l_inv 2); [assumption|reflexivity]. Qed.

Lemma pow2_Z (e : Z) : (0 <= e)%Z -> pow2 e == inject_Z (2 ^ e).
Proof. intros. symmetry. apply (Zpower_Qpower 2). assumption. Qed.

Lemma pow2_cancel (a : Z) : pow2 a * pow2 (- a) == 1.
Proof. rewrite <- pow2_add, Z.add_opp_diag_r. reflexivity. Qed.

Lemma ilog2_spec (x : Q) : 0 < x -> pow2 (ilog2 x) <= x /\ x < pow2 (ilog2 x + 1).
Proof.
  destruct x as [n d]. intros Hx.
  assert (Hn : (0 < n)%Z).
  { unfold Qlt in Hx. simpl in Hx. lia. }
  unfold ilog2. cbn [Qnum Qden]. rewrite Z.abs_eq by lia.
  assert (Habs : Qabs (n # d) = (n # d)).
  { unfold Qabs. rewrite Z.abs_eq by lia. reflexivity. }
  rewrite Habs.
  set (a := Z.log2 n). set (b := Z.log2 (Z.pos d)).
  destruct (Z.log2_spec n Hn) as [Ha1 Ha2].
  destruct (Z.log2_spec (Z.pos d) eq_refl) as [Hb1 Hb2].
  fold a in Ha1, Ha2. fold b in Hb1, Hb2.
  assert (Ha0 : (0 <= a)%Z) by apply Z.log2_nonneg.
  assert (Hb0 : (0 <= b)%Z) by apply Z.log2_nonneg.
  pose proof (pow2_pos a) as HA. pose proof (pow2_pos b) as HB.
  assert (Hq : (n # d) == inject_Z n / inject_Z (Z.pos d)) by apply Qmake_Qdiv.
  assert (Hd : 0 < inject_Z (Z.pos d)) by reflexivity.
  assert (QA1 : pow2 a <= inject_Z n) by (rewrite pow2_Z, <- Zle_Qle; assumption).
  assert (QA2 : inject_Z n < 2 * pow2 a).
  { rewrite <- pow2_succ, pow2_Z, <- Zlt_Qlt by lia. unfold Z.succ in Ha2. exact Ha2. }
  assert (QB1 : pow2 b <= inject_Z (Z.pos d)) by (rewrite pow2_Z, <- Zle_Qle; assumption).
  assert (QB2 : inject_Z (Z.pos d) < 2 * pow2 b).
  { rewrite <- pow2_succ, pow2_Z, <- Zlt_Qlt by lia. unfold Z.succ in Hb2. exact Hb2. }
  assert (Hk : pow2 (a - b) * pow2 b == pow2 a).
  { rewrite <- pow2_add. replace (a - b + b)%Z with a by lia. reflexivity. }
  pose proof (pow2_pos (a - b)) as HK.
  set (N := inject_Z n) in *. set (D := inject_Z (Z.pos d)) in *.
  destruct (Qle_bool (pow2 (a - b)) (n # d)) eqn:Hc.
  - apply Qle_bool_iff in Hc. split; [exact Hc|].
    rewrite pow2_succ, Hq. apply Qlt_shift_div_r; [exact Hd|].
    nra.
  - assert (Hlt : (n # d) < pow2 (a - b)).
    { apply Qnot_le_lt. intros C. apply Qle_bool_iff in C. congruence. }
    split.
    + rewrite Hq. apply Qle_shift_div_l; [exact Hd|].
      assert (Hk' : 2 * pow2 (a - b - 1) == pow2 (a - b)).
      { rewrite <- pow2_succ. replace (a - b - 1 + 1)%Z with (a - b)%Z by lia. reflexivity. }
      pose proof (pow2_pos (a - b - 1)). nra.
    + replace (a - b - 1 + 1)%Z with (a - b)%Z by lia. exact Hlt.
Qed.

Lemma ilog2_unique (x : Q) (k : Z) : pow2 k <= x -> x < pow2 (k + 1) -> ilog2 x = k.
Proof.
  intros H1 H2.
  assert (Hx : 0 < x) by (pose proof (pow2_pos k); lra).
  destruct (ilog2_spec x Hx) as [H3 H4].
  assert ((ilog2 x < k + 1)%Z) by (apply pow2_lt_inv; lra).
  assert ((k < ilog2 x + 1)%Z) by (apply pow2_lt_inv; lra).
  lia.
Qed.

Lemma ilog2_mono (x y : Q) : 0 < x -> x <= y -> (ilog2 x <= ilog2 y)%Z.
Proof.
  intros Hx Hxy.
  destruct (ilog2_spec x Hx) as [H1 _].
  destruct (ilog2_spec y) as [_ H2]; [lra|].
  assert ((ilog2 x < ilog2 y + 1)%Z) by (apply pow2_lt_inv; lra).
  lia.
Qed.

Lemma ilog2_comp (x y : Q) : 0 < x -> x == y -> ilog2 x = ilog2 y.
Proof.
  intros Hx E. symmetry. destruct (ilog2_spec x Hx). apply ilog2_unique; lra.
Qed.

(** ** Rounding to binary64: monotonicity, exactness, error *)

Lemma fl_pos_eq (x : Q) :
  0 < x -> fl x == inject_Z (rne (x / pow2 (fexp x))) * pow2 (fexp x).
Proof.
  intros Hx. unfold fl. destruct (Qeq_bool x 0) eqn:E.
  - apply Qeq_bool_iff in E. lra.
  - apply Qred_correct.
Qed.

Lemma fexp_mono (x y : Q) : 0 < x -> x <= y -> (fexp x <= fexp y)%Z.
Proof. intros Hx Hxy. unfold fexp. pose proof (ilog2_mono x y Hx Hxy). lia. Qed.

Lemma fexp_comp (x y : Q) : 0 < x -> x == y -> fexp x = fexp y.
Proof. intros Hx E. unfold fexp. rewrite (ilog2_comp x y Hx E). reflexivity. Qed.

Lemma scaled_lt_pow2_53 (x : Q) : 0 < x -> x / pow2 (fexp x) < pow2 53.
Proof.
  intros Hx. destruct (ilog2_spec x Hx) as [_ H].
  apply Qlt_shift_div_r; [apply pow2_pos|].
  rewrite <- pow2_add.
  eapply Qlt_le_trans; [exact H|]. apply pow2_mono. unfold fexp. lia.
Qed.

Lemma scaled_ge_pow2_52 (x : Q) :
  0 < x -> (emin < fexp x)%Z -> pow2 52 <= x / pow2 (fexp x).
Proof.
  intros Hx He. destruct (ilog2_spec x Hx) as [H _].
  apply Qle_shift_div_l; [apply pow2_pos|].
  rewrite <- pow2_add.
  eapply Qle_trans; [|exact H]. apply pow2_mono. unfold fexp in *. lia.
Qed.

Lemma fl_mono (x y : Q) : 0 < x -> x <= y -> fl x <= fl y.
Proof.
  intros Hx Hxy. assert (Hy : 0 < y) by lra.
  rewrite (fl_pos_eq x Hx), (fl_pos_eq y Hy).
  pose proof (fexp_mono x y Hx Hxy) as He.
  pose proof (pow2_pos (fexp x)) as Pa. pose proof (pow2_pos (fexp y)) as Pb.
  destruct (Z.eq_dec (fexp x) (fexp y)) as [E|NE].
  - rewrite <- E. apply Qmult_le_compat_r; [|lra].
    rewrite <- Zle_Qle. apply rne_mono.
    apply Qle_shift_div_l; [exact Pa|].
    unfold Qdiv. rewrite <- Qmult_assoc, (Qmult_comm (/ _)), Qmult_inv_r by lra. lra.
  - assert (Hlt : (fexp x < fexp y)%Z) by lia.
    assert (H1 : inject_Z (rne (x / pow2 (fexp x))) <= pow2 53).
    { rewrite (pow2_Z 53) by lia. rewrite <- Zle_Qle.
      rewrite <- (rne_inject_Z (2 ^ 53)). apply rne_mono.
      rewrite <- pow2_Z by lia. apply Qlt_le_weak, scaled_lt_pow2_53. exact Hx. }
    assert (H2 : pow2 52 <= inject_Z (rne (y / pow2 (fexp y)))).
    { rewrite (pow2_Z 52) by lia. rewrite <- Zle_Qle.
      rewrite <- (rne_inject_Z (2 ^ 52)) at 1. apply rne_mono.
      rewrite <- pow2_Z by lia. apply scaled_ge_pow2_52; [exact Hy|].
      unfold fexp in *. lia. }
    apply Qle_trans with (pow2 53 * pow2 (fexp x)).
    { apply Qmult_le_compat_r; lra. }
    apply Qle_trans with (pow2 52 * pow2 (fexp y)).
    { rewrite <- !pow2_add. apply pow2_mono. lia. }
    apply Qmult_le_compat_r; lra.
Qed.

Lemma fl_repr (m e : Z) :
  (0 < m < 2 ^ 53)%Z -> (emin <= e)%Z ->
  fl (inject_Z m * pow2 e) == inject_Z m * pow2 e.
Proof.
  intros Hm He. set (x := inject_Z m * pow2 e).
  pose proof (pow2_pos e) as Pe.
  assert (Hm0 : 0 < inject_Z m) by (change 0 with (inject_Z 0); rewrite <- Zlt_Qlt; lia).
  assert (Hx : 0 < x) by (unfold x; nra).
  rewrite (fl_pos_eq x Hx).
  assert (Hfe : (fexp x <= e)%Z).
  { destruct (ilog2_spec x Hx) as [H _].
    assert (Hlt : x < pow2 (53 + e)).
    { unfold x. rewrite pow2_add, (pow2_Z 53) by lia.
      apply Qmult_lt_compat_r; [exact Pe|]. rewrite <- Zlt_Qlt. lia. }
    assert ((ilog2 x < 53 + e)%Z) by (apply pow2_lt_inv; lra).
    unfold fexp. lia. }
  set (a := fexp x) in *.
  assert (Hs : x / pow2 a == inject_Z (m * 2 ^ (e - a))).
  { rewrite inject_Z_mult, <- pow2_Z by lia. unfold x.
    replace (e - a)%Z with (e + - a)%Z by lia. rewrite pow2_add.
    unfold Qdiv. rewrite <- Qmult_assoc. apply Qmult_comp; [reflexivity|].
    apply Qmult_comp; [reflexivity|].
    pose proof (pow2_cancel a) as Hc. pose proof (pow2_pos a).
    apply (Qmult_inj_l _ _ (pow2 a)); [lra|]. rewrite Qmult_inv_r by lra.
    symmetry. exact Hc. }
  rewrite (rne_comp _ _ Hs), rne_inject_Z.
  rewrite inject_Z_mult, <- pow2_Z by lia. unfold x.
  rewrite <- Qmult_assoc, <- pow2_add. replace (e - a + a)%Z with e by lia. reflexivity.
Qed.

Lemma fl_comp (x y : Q) : 0 < x -> x == y -> fl x == fl y.
Proof.
  intros Hx E. assert (Hy : 0 < y) by lra.
  rewrite (fl_pos_eq x Hx), (fl_pos_eq y Hy), <- (fexp_comp x y Hx E).
  assert (Es : x / pow2 (fexp x) == y / pow2 (fexp x)) by (unfold Qdiv; apply Qmult_comp; [exact E|reflexivity]).
  rewrite (rne_comp _ _ Es). reflexivity.
Qed.

Lemma fl_Z (k : Z) : (0 < k < 2 ^ 53)%Z -> fl (inject_Z k) == inject_Z k.
Proof.
  intros Hk. pose proof (fl_repr k 0 Hk) as H.
  change (pow2 0) with 1 in H.
  assert (Hk0 : 0 < inject_Z k) by (change 0 with (inject_Z 0); rewrite <- Zlt_Qlt; lia).
  rewrite (fl_comp (inject_Z k) (inject_Z k * 1) Hk0) by ring.
  rewrite H by (unfold emin; lia). ring.
Qed.

Lemma fl_err (x : Q) :
  0 < x ->
  fl x - x <= pow2 (fexp x) * (1#2) /\ x - fl x <= pow2 (fexp x) * (1#2).
Proof.
  intros Hx. rewrite (fl_pos_eq x Hx).
  pose proof (pow2_pos (fexp x)) as P.
  destruct (rne_bounds (x / pow2 (fexp x))) as [H1 H2].
  set (R := inject_Z (rne (x / pow2 (fexp x)))) in *.
  assert (E : x / pow2 (fexp x) * pow2 (fexp x) == x) by (field; lra).
  set (q := x / pow2 (fexp x)) in *. set (p := pow2 (fexp x)) in *.
  split; nra.
Qed.

Lemma fexp_normal (x : Q) : 1 <= x -> fexp x = (ilog2 x - 52)%Z.
Proof.
  intros Hx. unfold fexp.
  assert ((0 <= ilog2 x)%Z).
  { assert (E1 : ilog2 1 = 0%Z) by reflexivity.
    rewrite <- E1. apply ilog2_mono; lra. }
  unfold emin. lia.
Qed.

Lemma fl_rel_err (x : Q) :
  1 <= x -> fl x <= x * (1 + pow2 (-53)) /\ x * (1 - pow2 (-53)) <= fl x.
Proof.
  intros Hx. assert (Hx0 : 0 < x) by lra.
  destruct (fl_err x Hx0) as [H1 H2].
  destruct (ilog2_spec x Hx0) as [H3 _].
  rewrite (fexp_normal x Hx) in *.
  assert (E : pow2 (ilog2 x - 52) * (1#2) == pow2 (ilog2 x) * pow2 (-53)).
  { replace (ilog2 x - 52)%Z with (ilog2 x + -53 + 1)%Z by lia.
    rewrite pow2_succ, pow2_add. field. }
  rewrite E in *. pose proof (pow2_pos (-53)). pose proof (pow2_pos (ilog2 x)).
  split; nra.
Qed.

(** ** Adding one moves the rounded value past the next integer *)

Lemma inject_Z_pos (k : Z) : (0 < k)%Z -> 0 < inject_Z k.
Proof. intros. change 0 with (inject_Z 0). rewrite <- Zlt_Qlt. assumption. Qed.

Lemma Qfloor_ge (k : Z) (q : Q) : inject_Z k <= q -> (k <= Qfloor q)%Z.
Proof. intros H. rewrite <- (Qfloor_Z k). apply Qfloor_resp_le. exact H. Qed.

Lemma fl_floor_succ (x : Q) :
  1 <= x -> x + 1 < pow2 52 ->
  (Qfloor (fl x) + 1 <= Qfloor (fl (x + 1)))%Z.
Proof.
  intros Hx1 Hx2. assert (Hx0 : 0 < x) by lra. assert (Hy0 : 0 < x + 1) by lra.
  set (k := Qfloor (fl x)).
  destruct (Qfloor_bounds (fl x)) as [Hk1 Hk2]. fold k in Hk1, Hk2.
  assert (F1 : fl 1 == 1) by (apply (fl_Z 1); lia).
  assert (F52 : fl (pow2 52) == pow2 52).
  { rewrite (fl_comp (pow2 52) (inject_Z (2 ^ 52))) by (reflexivity || apply pow2_Z; lia).
    rewrite fl_Z by lia. reflexivity. }
  assert (Hflx1 : 1 <= fl x) by (rewrite <- F1; apply fl_mono; lra).
  assert (Hflx2 : fl x <= pow2 52) by (rewrite <- F52; apply fl_mono; lra).
  assert (Hk : (1 <= k <= 2 ^ 52)%Z).
  { split.
    - apply (Qfloor_ge 1). exact Hflx1.
    - rewrite Zle_Qle. rewrite (pow2_Z 52) in Hflx2 by lia. lra. }
  assert (Fk1 : fl (inject_Z (k + 1)) == inject_Z (k + 1)) by (apply fl_Z; lia).
  apply Qfloor_ge. fold k.
  destruct (Qlt_le_dec x (inject_Z k)) as [Hlt|Hge].
  2:{ rewrite <- Fk1. apply fl_mono.
      - apply inject_Z_pos. lia.
      - rewrite inject_Z_plus. change (inject_Z 1) with 1. lra. }
  (* otherwise x lies below k and rounds up to it *)
  assert (Fk : fl (inject_Z k) == inject_Z k) by (apply fl_Z; lia).
  assert (Hflk : fl x == inject_Z k).
  { apply Qle_antisym; [|exact Hk1]. rewrite <- Fk. apply fl_mono; lra. }
  set (a := fexp x). set (b := fexp (x + 1)).
  assert (Hab : (a <= b)%Z) by (apply fexp_mono; lra).
  assert (Hb : (b <= -1)%Z).
  { unfold b. rewrite fexp_normal by lra.
    destruct (ilog2_spec (x + 1) Hy0) as [H _].
    assert ((ilog2 (x + 1) < 52)%Z) by (apply pow2_lt_inv; lra). lia. }
  pose proof (pow2_pos a) as Pa. pose proof (pow2_pos b) as Pb.
  rewrite (fl_pos_eq (x + 1) Hy0). fold b.
  assert (Ek1 : inject_Z (k + 1) == inject_Z ((k + 1) * 2 ^ (- b)) * pow2 b).
  { rewrite (inject_Z_mult (k + 1)), <- pow2_Z by lia.
    rewrite <- Qmult_assoc, <- pow2_add, Z.add_opp_diag_l. change (pow2 0) with 1. ring. }
  destruct (Z.eq_dec a b) as [Eab|Nab].
  - (* same binade: shift by an even number of units in the last place *)
    assert (Es : (x + 1) / pow2 b == x / pow2 a + inject_Z (2 * 2 ^ (- b - 1))).
    { rewrite Eab. rewrite inject_Z_mult, <- pow2_Z by lia.
      change (inject_Z 2) with (pow2 1). rewrite <- pow2_add.
      replace (1 + (- b - 1))%Z with (- b)%Z by lia.
      pose proof (pow2_cancel b) as Hc. set (p := pow2 b) in *. set (p' := pow2 (- b)) in *.
      apply (Qmult_inj_r _ _ p); [lra|].
      assert (E1 : (x + 1) / p * p == x + 1) by (field; lra).
      assert (E2 : x / p * p == x) by (field; lra).
      rewrite E1. rewrite Qmult_plus_distr_l, E2, (Qmult_comm p' p), Hc. reflexivity. }
    rewrite (rne_comp _ _ Es), rne_add_even.
    pose proof (fl_pos_eq x Hx0) as Hfx. fold a in Hfx. rewrite Hflk in Hfx.
    assert (Eu : inject_Z (2 * 2 ^ (- b - 1)) * pow2 b == 1).
    { rewrite inject_Z_mult, <- pow2_Z by lia.
      change (inject_Z 2) with (pow2 1). rewrite <- !pow2_add.
      replace (1 + (- b - 1) + b)%Z with 0%Z by lia. reflexivity. }
    rewrite <- Eab in Eu |- *.
    set (R := rne (x / pow2 a)) in *.
    rewrite (inject_Z_plus R), Qmult_plus_distr_l, <- Hfx, Eu.
    rewrite inject_Z_plus. change (inject_Z 1) with 1. lra.
  - (* next binade: x + 1 is within a quarter unit of k + 1 *)
    assert (Hrne : rne ((x + 1) / pow2 b) = ((k + 1) * 2 ^ (- b))%Z).
    { destruct (fl_err x Hx0) as [He _]. fold a in He. rewrite Hflk in He.
      assert (Hpa : pow2 a * 2 <= pow2 b).
      { assert (E2 : pow2 a * 2 == pow2 (a + 1)) by (rewrite pow2_succ; ring).
        rewrite E2. apply pow2_mono. lia. }
      assert (Ed : inject_Z ((k + 1) * 2 ^ (- b)) == inject_Z (k + 1) / pow2 b).
      { rewrite Ek1. field. lra. }
      assert (Eq1 : inject_Z (k + 1) / pow2 b - (x + 1) / pow2 b
                    == (inject_Z k - x) / pow2 b).
      { rewrite inject_Z_plus. change (inject_Z 1) with 1. field. lra. }
      apply rne_near; rewrite Ed.
      + apply Qlt_minus_iff. 
        assert (0 <= (inject_Z k - x) / pow2 b).
        { apply Qle_shift_div_l; [exact Pb|]. lra. }
        rewrite <- Eq1 in H. lra.
      + rewrite Eq1. apply Qlt_shift_div_r; [exact Pb|]. lra. }
    rewrite Hrne, <- Ek1. lra.
Qed.

(** ** Agreement with the kernel's binary64 arithmetic

    On the operands that matter below, rounding the exact result with [fl]
    gives the value the primitive floating-point operations compute. *)

Example fl_agrees_div :
  Q_of_float (PrimFloat.div 87%float 75%float) = Some (fl (87 # 75)).
Proof. vm_compute. reflexivity. Qed.

Example fl_agrees_mul :
  Q_of_float (PrimFloat.mul 25%float (PrimFloat.div 87%float 75%float))
  = Some (fl (25 * fl (87 # 75))).
Proof. vm_compute. reflexivity. Qed.

Example fl_agrees_tension :
  Q_of_float (PrimFloat.div 2%float 10%float) = Some (fl (2 # 10)).
Proof. vm_compute. reflexivity. Qed.

Example fl_agrees_small :
  Q_of_float (PrimFloat.div 42%float 100000%float) = Some (fl (42 # 100000)).
Proof. vm_compute. reflexivity. Qed.

Example fl_agrees_sub :
  Q_of_float (PrimFloat.sub (PrimFloat.div 1%float 10%float) (PrimFloat.div 3%float 10%float))
  = Some (fl (fl (1 # 10) - fl (3 # 10))).
Proof. vm_compute. reflexivity. Qed.

(** For the default budget and every length from 76 to 199, each interior
    index of the model is the one the primitive floats give. *)
Example sample_index_agrees_with_kernel :
  forallb (indices_agree DEFAULT_TARGET_POINTS) (Zrange 76 200) = true.
Proof. vm_compute. reflexivity. Qed.

(** ** Downsampling: the selected indices *)

Lemma Qfloor_lt (q : Q) (k : Z) : q < inject_Z k -> (Qfloor q < k)%Z.
Proof.
  intros H. rewrite Zlt_Qlt. eapply Qle_lt_trans; [apply Qfloor_le|exact H].
Qed.

Lemma eps53 : pow2 (-53) == 1 # 9007199254740992.
Proof. reflexivity. Qed.

(** *** The stride [s = fl (n / t)] and the products [i * s]

    For a budget [2 <= t] and a length [t < n <= 2^32 - 1]. *)
Section StepBounds.
Variables n t : Z.
Hypothesis Ht : (2 <= t)%Z.
Hypothesis Htn : (t < n)%Z.
Hypothesis Hn : (n <= MAX_ARRAY_LENGTH)%Z.

Let N := inject_Z n.
Let T := inject_Z t.
Let r := N / T.
Let s := fl r.

Lemma T_pos : 2 <= T /\ T + 1 <= N /\ N <= 4294967295.
Proof.
  unfold T, N. repeat split.
  - change 2 with (inject_Z 2). rewrite <- Zle_Qle. lia.
  - change 1 with (inject_Z 1). rewrite <- inject_Z_plus, <- Zle_Qle. lia.
  - change 4294967295 with (inject_Z MAX_ARRAY_LENGTH). rewrite <- Zle_Qle. lia.
Qed.

Lemma ratio_spec : r * T == N /\ 1 < r /\ r <= N.
Proof.
  destruct T_pos as (H1 & H2 & H3). unfold r.
  assert (E : N / T * T == N) by (field; lra).
  repeat split.
  - exact E.
  - apply Qlt_shift_div_l; lra.
  - apply Qle_shift_div_r; [lra|]. nra.
Qed.

Lemma step_bounds : 1 <= s /\ s <= r * (1 + pow2 (-53)).
Proof.
  destruct ratio_spec as (E & H1 & H2). split.
  - unfold s. rewrite <- (fl_Z 1) by lia. apply fl_mono; [reflexivity|].
    change (inject_Z 1) with 1. lra.
  - apply fl_rel_err. lra.
Qed.

Lemma product_bounds (i : Z) :
  (1 <= i <= t - 2)%Z ->
  1 <= inject_Z i * s /\ inject_Z i * s + 1 <= inject_Z (i + 1) * s
  /\ inject_Z i * s <= (N - 2) * (1 + pow2 (-53)).
Proof.
  intros Hi. destruct step_bounds as [S1 S2]. destruct ratio_spec as (E & R1 & R2).
  destruct T_pos as (H1 & H2 & H3).
  assert (I1 : 1 <= inject_Z i) by (change 1 with (inject_Z 1); rewrite <- Zle_Qle; lia).
  assert (I2 : inject_Z i <= T - 2).
  { unfold T. change 2 with (inject_Z 2). unfold Qminus. rewrite <- inject_Z_opp, <- inject_Z_plus, <- Zle_Qle. lia. }
  rewrite inject_Z_plus. change (inject_Z 1) with 1.
  rewrite eps53 in *.
  repeat split.
  - nra.
  - nra.
  - apply Qle_trans with ((T - 2) * (r * (1 + (1 # 9007199254740992)))).
    + apply Qle_trans with ((T - 2) * s).
      * apply Qmult_le_compat_r; lra.
      * rewrite !(Qmult_comm (T - 2)). apply Qmult_le_compat_r; lra.
    + assert (E' : (T - 2) * (r * (1 + (1 # 9007199254740992)))
                   == (N - 2 * r) * (1 + (1 # 9007199254740992))).
      { rewrite <- E. ring. }
      rewrite E'. apply Qmult_le_compat_r; lra.
Qed.

Lemma rounded_product_bounds (i : Z) :
  (1 <= i <= t - 2)%Z ->
  1 <= fl (inject_Z i * s) /\ fl (inject_Z i * s) < N - 1.
Proof.
  intros Hi. destruct (product_bounds i Hi) as (P1 & _ & P3).
  destruct T_pos as (H1 & H2 & H3).
  destruct (fl_rel_err _ P1) as [F1 _].
  rewrite eps53 in *. split.
  - rewrite <- (fl_Z 1) by lia. apply fl_mono; [reflexivity|].
    change (inject_Z 1) with 1. exact P1.
  - set (x := inject_Z i * s) in *. lra.
Qed.

(** Every interior index lies strictly between the first and the last. *)
Lemma sample_index_range (i : Z) :
  (1 <= i <= t - 2)%Z -> (1 <= sample_index n t i <= n - 2)%Z.
Proof.
  intros Hi. destruct (rounded_product_bounds i Hi) as [B1 B2].
  unfold sample_index. fold N T r s. split.
  - apply (Qfloor_ge 1). exact B1.
  - assert (Qfloor (fl (inject_Z i * s)) < n - 1)%Z; [|lia].
    apply Qfloor_lt.
    assert (E : inject_Z (n - 1) == N - 1).
    { unfold N. replace (n - 1)%Z with (n + -1)%Z by lia.
      rewrite inject_Z_plus. reflexivity. }
    rewrite E. exact B2.
Qed.

(** Consecutive interior indices differ by at least one: the stride is at
    least 1 and rounding cannot merge two products one unit apart. *)
Lemma sample_index_step (i : Z) :
  (1 <= i)%Z -> (i + 1 <= t - 2)%Z ->
  (sample_index n t i + 1 <= sample_index n t (i + 1))%Z.
Proof.
  intros Hi1 Hi2.
  destruct (product_bounds i ltac:(lia)) as (P1 & P2 & P3).
  destruct T_pos as (H1 & H2 & H3).
  unfold sample_index. fold N T r s.
  set (x := inject_Z i * s) in *.
  assert (Hx : x + 1 < pow2 52).
  { rewrite eps53 in P3. change (pow2 52) with 4503599627370496. lra. }
  eapply Z.le_trans; [apply (fl_floor_succ x P1 Hx)|].
  apply Qfloor_resp_le. apply fl_mono; lra.
Qed.
End StepBounds.

(** *** Ranges *)

Lemma Zrange_length (lo hi : Z) : List.length (Zrange lo hi) = Z.to_nat (hi - lo).
Proof. unfold Zrange. rewrite length_map, length_seq. reflexivity. Qed.

Lemma Zrange_In (lo hi i : Z) : In i (Zrange lo hi) <-> (lo <= i < hi)%Z.
Proof.
  unfold Zrange. rewrite in_map_iff. split.
  - intros (k & E & Hk). apply in_seq in Hk. lia.
  - intros H. exists (Z.to_nat (i - lo)). split; [lia|]. apply in_seq. lia.
Qed.

Lemma Zrange_nth_error (lo hi : Z) (k : nat) :
  (k < Z.to_nat (hi - lo))%nat ->
  nth_error (Zrange lo hi) k = Some (lo + Z.of_nat k)%Z.
Proof.
  intros Hk. unfold Zrange. rewrite nth_error_map.
  rewrite nth_error_seq. 
  destruct (Nat.ltb_spec k (Z.to_nat (hi - lo))); [reflexivity|lia].
Qed.

Lemma Zrange_sorted (lo hi : Z) : StronglySorted Z.lt (Zrange lo hi).
Proof.
  unfold Zrange. generalize (Z.to_nat (hi - lo)) as len. intros len.
  generalize 0%nat as s. induction len as [|len IH]; intros s; simpl.
  - constructor.
  - constructor; [apply IH|].
    apply Forall_forall. intros z Hz. apply in_map_iff in Hz.
    destruct Hz as (k & E & Hk). apply in_seq in Hk. lia.
Qed.

Lemma StronglySorted_map_mono (f : Z -> Z) (l : list Z) :
  (forall i j, In i l -> In j l -> (i < j)%Z -> (f i < f j)%Z) ->
  StronglySorted Z.lt l -> StronglySorted Z.lt (map f l).
Proof.
  intros Hf Hs. induction Hs as [|a l Hs IH Ha]; simpl.
  - constructor.
  - constructor.
    + apply IH. intros i j Hi Hj. apply Hf; right; assumption.
    + apply Forall_forall. intros z Hz. apply in_map_iff in Hz.
      destruct Hz as (k & E & Hk). subst z.
      apply Hf; [left; reflexivity|right; exact Hk|].
      rewrite Forall_forall in Ha. apply Ha. exact Hk.
Qed.

Lemma StronglySorted_snoc (l : list Z) (z : Z) :
  StronglySorted Z.lt l -> Forall (fun a => (a < z)%Z) l ->
  StronglySorted Z.lt (l ++ [z]).
Proof.
  intros Hs Hl. induction Hs as [|a l Hs IH Ha]; simpl.
  - repeat constructor.
  - inversion Hl; subst. constructor; [apply IH; assumption|].
    apply Forall_app. split; [assumption|]. repeat constructor. assumption.
Qed.

Lemma step_increasing (f : Z -> Z) (lo hi : Z) :
  (forall i, (lo <= i)%Z -> (i + 1 < hi)%Z -> (f i + 1 <= f (i + 1))%Z) ->
  forall i j, (lo <= i)%Z -> (i < j)%Z -> (j < hi)%Z -> (f i < f j)%Z.
Proof.
  intros Hstep i j Hi Hij Hj.
  replace j with (i + 1 + Z.of_nat (Z.to_nat (j - i - 1)))%Z by lia.
  assert (Hb : (i + 1 + Z.of_nat (Z.to_nat (j - i - 1)) < hi)%Z) by lia.
  revert Hb. generalize (Z.to_nat (j - i - 1)) as d.
  induction d as [|d IH]; intros Hb.
  - rewrite Z.add_0_r. specialize (Hstep i). lia.
  - specialize (Hstep (i + 1 + Z.of_nat d)%Z).
    replace (i + 1 + Z.of_nat (S d))%Z with (i + 1 + Z.of_nat d + 1)%Z by lia.
    assert (f i < f (i + 1 + Z.of_nat d))%Z by (apply IH; lia).
    lia.
Qed.

(** *** Evaluating the floating-point expressions *)

Lemma Number_round_finite (q : Q) :
  1 <= q -> fl q <= 8589934592 -> Number_round q = Fin (fl q).
Proof.
  intros H1 H2. unfold Number_round.
  assert (F1 : 1 <= fl q).
  { rewrite <- (fl_Z 1) by lia. apply fl_mono; [reflexivity|]. exact H1. }
  destruct (Qle_bool (pow2 1024) (Qabs (fl q))) eqn:E; [|reflexivity].
  exfalso. apply Qle_bool_iff in E.
  assert (F0 : 0 <= fl q) by lra.
  rewrite (Qabs_pos _ F0) in E.
  assert (Hm : pow2 34 <= pow2 1024) by (apply pow2_mono; discriminate).
  change (pow2 34) with 17179869184 in Hm.
  set (P := pow2 1024) in *. clearbody P. lra.
Qed.

Lemma array_get_num_Z {A : Type} (data : list A) (z : Z) :
  array_get_num data (Fin (inject_Z z)) = array_get data z.
Proof.
  unfold array_get_num. rewrite Qfloor_Z.
  destruct (Qeq_bool (inject_Z z) (inject_Z z)) eqn:E; [reflexivity|].
  exfalso. apply Qeq_bool_neq in E. apply E. reflexivity.
Qed.

Lemma array_get_Elem {A : Type} (data : list A) (i : Z) :
  (0 <= i < Z.of_nat (List.length data))%Z ->
  exists a, nth_error data (Z.to_nat i) = Some a /\ array_get data i = Elem a.
Proof.
  intros Hi. unfold array_get.
  destruct (Z.ltb_spec i 0); [lia|].
  destruct (nth_error data (Z.to_nat i)) as [a|] eqn:E.
  - exists a. split; reflexivity.
  - apply nth_error_None in E. lia.
Qed.

Section IndexEval.
Context {A : Type}.
Variable data : list A.
Variable t : Z.
Let n := data_length data.
Hypothesis Ht : (2 <= t)%Z.
Hypothesis Htn : (t < n)%Z.
Hypothesis Hn : (n <= MAX_ARRAY_LENGTH)%Z.

Lemma downsample_step_eval :
  downsample_step data t = Fin (fl (inject_Z n / inject_Z t)).
Proof.
  unfold downsample_step, num_div, Number_of_Z. fold n.
  destruct (T_pos n t Ht Htn Hn) as (H1 & H2 & H3).
  destruct (ratio_spec n t Ht Htn Hn) as (E & R1 & R2).
  destruct (step_bounds n t Ht Htn Hn) as [S1 S2].
  rewrite eps53 in S2.
  unfold Qzero. destruct (Qeq_bool (inject_Z t) 0) eqn:E0.
  { apply Qeq_bool_iff in E0. lra. }
  apply Number_round_finite; lra.
Qed.

Lemma downsample_index_eval (i : Z) :
  (1 <= i <= t - 2)%Z ->
  downsample_index (downsample_step data t) i
  = Fin (inject_Z (sample_index n t i)).
Proof.
  intros Hi. rewrite downsample_step_eval.
  unfold downsample_index, num_mul, Number_of_Z.
  destruct (T_pos n t Ht Htn Hn) as (H1 & H2 & H3).
  destruct (product_bounds n t Ht Htn Hn i Hi) as (P1 & _ & _).
  destruct (rounded_product_bounds n t Ht Htn Hn i Hi) as [B1 B2].
  rewrite Number_round_finite by lra. reflexivity.
Qed.

Lemma sample_read (i : Z) :
  (1 <= i <= t - 2)%Z ->
  array_get_num data (downsample_index (downsample_step data t) i)
  = array_get data (sample_index n t i).
Proof.
  intros Hi. rewrite (downsample_index_eval i Hi). apply array_get_num_Z.
Qed.
End IndexEval.

(** *** The loop of [downsampleData] *)

Lemma downsample_fold {A : Type} (data : list A) (step : number)
      (l : list Z) (acc : list (slot A)) :
  fold_left (downsample_body data step) l acc
  = (acc ++ map (fun i => array_get_num data (downsample_index step i)) l)%list.
Proof.
  revert acc. induction l as [|i l IH]; intros acc; simpl.
  - rewrite app_nil_r. reflexivity.
  - rewrite IH. unfold downsample_body. rewrite <- app_assoc. reflexivity.
Qed.

Lemma downsampleData_long {A : Type} (data : list A) (t : Z) :
  (t < data_length data)%Z ->
  downsampleData data t
  = (array_get data 0
     :: map (fun i => array_get_num data
                        (downsample_index (downsample_step data t) i))
            (Zrange 1 (t - 1))
     ++ [array_get data (data_length data - 1)])%list.
Proof.
  intros H. unfold downsampleData.
  destruct (Z.leb_spec (data_length data) t); [lia|].
  rewrite downsample_fold. reflexivity.
Qed.

Lemma downsampleData_short {A : Type} (data : list A) (t : Z) :
  (data_length data <= t)%Z -> downsampleData data t = map Elem data.
Proof.
  intros H. unfold downsampleData.
  destruct (Z.leb_spec (data_length data) t); [reflexivity|lia].
Qed.

Lemma downsampleData_indices {A : Type} (data : list A) (t : Z) :
  (2 <= t)%Z -> (t < data_length data)%Z ->
  (data_length data <= MAX_ARRAY_LENGTH)%Z ->
  downsampleData data t
  = map (array_get data) (sample_indices (data_length data) t).
Proof.
  intros Ht Htn Hn. rewrite downsampleData_long by exact Htn.
  unfold sample_indices. simpl. f_equal.
  rewrite map_app, map_map. simpl. f_equal.
  apply map_ext_in. intros i Hi. apply Zrange_In in Hi.
  apply sample_read; try assumption. lia.
Qed.

Lemma sample_indices_sorted (n t : Z) :
  (2 <= t)%Z -> (t < n)%Z -> (n <= MAX_ARRAY_LENGTH)%Z ->
  StronglySorted Z.lt (sample_indices n t).
Proof.
  intros Ht Htn Hn. unfold sample_indices.
  assert (Hr : forall i, In i (Zrange 1 (t - 1)) ->
                         (1 <= sample_index n t i <= n - 2)%Z).
  { intros i Hi. apply Zrange_In in Hi. apply sample_index_range; lia. }
  constructor.
  - apply StronglySorted_snoc.
    + apply StronglySorted_map_mono; [|apply Zrange_sorted].
      intros i j Hi Hj Hij. apply Zrange_In in Hi, Hj.
      apply (step_increasing (sample_index n t) 1 (t - 1)); try lia.
      intros k Hk1 Hk2. apply sample_index_step; lia.
    + apply Forall_forall. intros z Hz. apply in_map_iff in Hz.
      destruct Hz as (i & E & Hi). subst z. specialize (Hr i Hi). lia.
  - apply Forall_app. split.
    + apply Forall_forall. intros z Hz. apply in_map_iff in Hz.
      destruct Hz as (i & E & Hi). subst z. specialize (Hr i Hi). lia.
    + repeat constructor. lia.
Qed.

Lemma sample_indices_range (n t : Z) :
  (2 <= t)%Z -> (t < n)%Z -> (n <= MAX_ARRAY_LENGTH)%Z ->
  Forall (fun j => (0 <= j < n)%Z) (sample_indices n t).
Proof.
  intros Ht Htn Hn. unfold sample_indices.
  constructor; [lia|]. apply Forall_app. split.
  - apply Forall_forall. intros z Hz. apply in_map_iff in Hz.
    destruct Hz as (i & E & Hi). subst z. apply Zrange_In in Hi.
    pose proof (sample_index_range n t Ht Htn Hn i ltac:(lia)). lia.
  - repeat constructor; lia.
Qed.

Lemma sample_indices_length (n t : Z) :
  (2 <= t)%Z -> List.length (sample_indices n t) = Z.to_nat t.
Proof.
  intros Ht. unfold sample_indices. simpl.
  rewrite length_app, length_map, Zrange_length. simpl. lia.
Qed.

Open Scope string_scope.

(** ** Strings *)




(** ** Sorting and slicing *)

Section SortByKey.
Context {A : Type}.
Variable key : A -> Z.
Let cmp (a b : A) : Z := (key a - key b)%Z.
Let le (a b : A) : Prop := (key a <= key b)%Z.

Lemma sort_insert_perm (a : A) (l : list A) :
  Permutation (a :: l) (sort_insert cmp a l).
Proof.
  induction l as [|b l IH]; simpl.
  - apply Permutation_refl.
  - destruct (cmp a b <=? 0)%Z.
    + apply Permutation_refl.
    + eapply perm_trans; [apply perm_swap|]. apply perm_skip. exact IH.
Qed.

Lemma Array_sort_perm (l : list A) : Permutation l (Array_sort cmp l).
Proof.
  induction l as [|a l IH]; simpl.
  - apply perm_nil.
  - eapply perm_trans; [apply perm_skip; exact IH|]. apply sort_insert_perm.
Qed.

Lemma sort_insert_sorted (a : A) (l : list A) :
  StronglySorted le l -> StronglySorted le (sort_insert cmp a l).
Proof.
  intros Hs. induction Hs as [|b l Hs IH Hb]; simpl.
  - repeat constructor.
  - destruct (Z.leb_spec (cmp a b) 0) as [Hle|Hgt]; unfold cmp in *.
    + constructor; [constructor; assumption|].
      constructor; [unfold le; lia|].
      eapply Forall_impl; [|exact Hb]. unfold le. intros c Hc. lia.
    + constructor; [exact IH|].
      eapply Permutation_Forall; [apply sort_insert_perm|].
      constructor; [unfold le; lia|exact Hb].
Qed.

Lemma Array_sort_sorted (l : list A) : StronglySorted le (Array_sort cmp l).
Proof.
  induction l as [|a l IH]; simpl.
  - constructor.
  - apply sort_insert_sorted. exact IH.
Qed.
End SortByKey.

Lemma In_firstn {A : Type} (a : A) (k : nat) (l : list A) :
  In a (firstn k l) -> In a l.
Proof.
  revert k. induction l as [|b l IH]; intros [|k]; simpl; try tauto.
  intros [E|H]; [left; exact E|right; apply (IH k); exact H].
Qed.


Lemma Array_slice0_firstn {A : Type} (l : list A) (k : Z) :
  (0 <= k)%Z -> Array_slice0 l k = firstn (Z.to_nat k) l.
Proof.
  intros Hk. unfold Array_slice0.
  destruct (Z.ltb_spec k 0); [lia|].
  destruct (Z.le_gt_cases k (Z.of_nat (List.length l))).
  - rewrite Z.min_l by assumption. reflexivity.
  - rewrite Z.min_r by lia. rewrite Nat2Z.id.
    rewrite !firstn_all2 by lia. reflexivity.
Qed.

(** ** Downsampling: the claims *)

Open Scope Z_scope.

Lemma array_get_first {A : Type} (d0 : A) (rest : list A) :
  array_get (d0 :: rest) 0 = Elem d0.
Proof. reflexivity. Qed.

Lemma array_get_last {A : Type} (d0 : A) (rest : list A) :
  array_get (d0 :: rest) (data_length (d0 :: rest) - 1)
  = Elem (last (d0 :: rest) d0).
Proof.
  unfold array_get, data_length.
  destruct (Z.ltb_spec (Z.of_nat (List.length (d0 :: rest)) - 1) 0) as [H|H].
  { simpl List.length in H. lia. }
  replace (Z.to_nat (Z.of_nat (List.length (d0 :: rest)) - 1))
    with (List.length rest) by (simpl List.length; lia).
  assert (E : forall (l : list A) (a : A),
             nth_error (a :: l) (List.length l) = Some (last (a :: l) d0)).
  { induction l as [|b l IH]; intros a; [reflexivity|].
    change (nth_error (a :: b :: l) (List.length (b :: l)))
      with (nth_error (b :: l) (List.length l)).
    rewrite IH. reflexivity. }
  rewrite E. reflexivity.
Qed.

Lemma last_map_Elem {A : Type} (d0 : A) (rest : list A) :
  last (map Elem (d0 :: rest)) Undefined = Elem (last (d0 :: rest) d0).
Proof.
  assert (G : forall (l : list A) (a d : A),
             last (map Elem (a :: l)) Undefined = Elem (last (a :: l) d)).
  { induction l as [|b l IH]; intros a d; [reflexivity|].
    change (last (map Elem (a :: b :: l)) Undefined)
      with (last (map Elem (b :: l)) Undefined).
    rewrite (IH b d). reflexivity. }
  apply G.
Qed.

Lemma Forall2_map_read {A : Type} (data : list A) (l : list Z) :
  Forall (fun j => 0 <= j < data_length data) l ->
  Forall2 (fun j o => exists a, nth_error data (Z.to_nat j) = Some a /\ o = Elem a)
          l (map (array_get data) l).
Proof.
  induction 1 as [|j l Hj Hl IH]; simpl; constructor.
  - apply array_get_Elem. exact Hj.
  - exact IH.
Qed.

(** C1.  When the series is longer than the budget, the result is the first
    point, then one point per [i = 1 .. budget-2], read at index
    [Math.floor(i * (length / budget))] (no interpolation), then the last
    point.  For an array of admissible length that index is an integer inside
    the series, so the point read is a raw sample. *)
Theorem downsample_selects_by_stride {A : Type} (d0 : A) (rest : list A)
        (targetPoints : Z) :
  let data := d0 :: rest in
  let n := data_length data in
  let index := fun i =>
    Math_floor (num_mul (Number_of_Z i)
                        (num_div (Number_of_Z n) (Number_of_Z targetPoints))) in
  targetPoints < n ->
  downsampleData data targetPoints
  = (Elem d0 :: map (fun i => array_get_num data (index i))
                    (Zrange 1 (targetPoints - 1))
             ++ [Elem (last data d0)])%list
  /\ List.length (Zrange 1 (targetPoints - 1)) = Z.to_nat (targetPoints - 2)
  /\ (forall i, 1 <= i <= targetPoints - 2 ->
        nth_error (downsampleData data targetPoints) (Z.to_nat i)
        = Some (array_get_num data (index i)))
  /\ (n <= MAX_ARRAY_LENGTH ->
      forall i, 1 <= i <= targetPoints - 2 ->
        index i = Fin (inject_Z (sample_index n targetPoints i))
        /\ exists a, nth_error data (Z.to_nat (sample_index n targetPoints i)) = Some a
                     /\ array_get_num data (index i) = Elem a).
Proof.
  intros data n index Hlt.
  assert (E : downsampleData data targetPoints
              = (Elem d0 :: map (fun i => array_get_num data (index i))
                                (Zrange 1 (targetPoints - 1))
                        ++ [Elem (last data d0)])%list).
  { rewrite (downsampleData_long data targetPoints Hlt).
    unfold data. rewrite array_get_first, array_get_last. reflexivity. }
  split; [exact E|]. split; [|split].
  - rewrite Zrange_length. f_equal. lia.
  - intros i Hi. rewrite E.
    replace (Z.to_nat i) with (S (Z.to_nat (i - 1))) by lia.
    cbn [nth_error]. rewrite nth_error_app1 by (rewrite length_map, Zrange_length; lia).
    rewrite nth_error_map, Zrange_nth_error by lia.
    cbn [option_map]. do 3 f_equal. lia.
  - intros Hn i Hi.
    assert (Ht : 2 <= targetPoints) by lia.
    pose proof (downsample_index_eval data targetPoints Ht Hlt Hn i Hi) as Ei.
    change (downsample_index (downsample_step data targetPoints) i)
      with (index i) in Ei. fold n in Ei.
    split; [exact Ei|].
    rewrite Ei, array_get_num_Z. apply array_get_Elem.
    pose proof (sample_index_range n targetPoints Ht Hlt Hn i Hi) as Hr.
    unfold n, data_length in Hr |- *. lia.
Qed.

Lemma downsample_selects_by_stride_witness :
  let p := (Number_of_Z 0, Number_of_Z 1) in
  let data := p :: repeat p 99 in
  DEFAULT_TARGET_POINTS < data_length data
  /\ List.length (downsampleData data DEFAULT_TARGET_POINTS) = 75%nat.
Proof.
  intros p data.
  assert (H : DEFAULT_TARGET_POINTS < data_length data) by reflexivity.
  split; [exact H|].
  destruct (downsample_selects_by_stride p (repeat p 99) DEFAULT_TARGET_POINTS H)
    as (E & L & _).
  fold data in E. rewrite E. cbn [List.length]. rewrite length_app, length_map, L.
  reflexivity.
Defined.

(** C2.  A series shorter than the budget is returned unchanged. *)
Theorem downsample_identity_below_budget {A : Type} (data : list A)
        (targetPoints : Z) :
  data_length data < targetPoints ->
  downsampleData data targetPoints = map Elem data.
Proof. intros H. apply downsampleData_short. lia. Qed.

Lemma downsample_identity_below_budget_witness :
  let data := [(Number_of_Z 0, Number_of_Z 7); (Number_of_Z 1, Number_of_Z 9)] in
  data_length data < DEFAULT_TARGET_POINTS
  /\ downsampleData data DEFAULT_TARGET_POINTS = map Elem data.
Proof.
  intros data. split; [reflexivity|].
  apply downsample_identity_below_budget. reflexivity.
Defined.

(** C3.  For a non-empty series the first sampled point is the first raw
    point and the last sampled point is the last raw point, whatever the
    budget. *)
Theorem downsample_keeps_endpoints {A : Type} (d0 : A) (rest : list A)
        (targetPoints : Z) :
  let data := d0 :: rest in
  hd_error (downsampleData data targetPoints) = Some (Elem d0)
  /\ last (downsampleData data targetPoints) Undefined = Elem (last data d0).
Proof.
  intros data.
  destruct (Z.le_gt_cases (data_length data) targetPoints) as [Hle|Hgt].
  - rewrite (downsampleData_short data targetPoints Hle). split.
    + reflexivity.
    + apply last_map_Elem.
  - rewrite (downsampleData_long data targetPoints) by lia.
    unfold data. rewrite array_get_first, array_get_last. split.
    + reflexivity.
    + rewrite app_comm_cons. apply last_last.
Qed.

(** C9.  When the series is strictly longer than the budget, the result has
    exactly [budget] elements and is the subsequence of the series at the
    strictly increasing indices [sample_indices]: every element is a raw
    sample, none is repeated, and time order is kept. *)
Theorem downsample_is_subsequence {A : Type} (data : list A) (targetPoints : Z) :
  let n := data_length data in
  2 <= targetPoints -> targetPoints < n -> n <= MAX_ARRAY_LENGTH ->
  List.length (downsampleData data targetPoints) = Z.to_nat targetPoints
  /\ StronglySorted Z.lt (sample_indices n targetPoints)
  /\ Forall2 (fun j o => 0 <= j < n /\
                         exists a, nth_error data (Z.to_nat j) = Some a /\ o = Elem a)
             (sample_indices n targetPoints) (downsampleData data targetPoints).
Proof.
  intros n Ht Htn Hn.
  pose proof (downsampleData_indices data targetPoints Ht Htn Hn) as E. fold n in E.
  pose proof (sample_indices_range n targetPoints Ht Htn Hn) as Hr.
  split; [|split].
  - rewrite E, length_map. apply sample_indices_length. exact Ht.
  - apply sample_indices_sorted; assumption.
  - rewrite E. pose proof (Forall2_map_read data _ Hr) as F.
    revert Hr F. generalize (sample_indices n targetPoints) as l.
    generalize (array_get data) as f. intros f l Hr F.
    induction l as [|j l IH]; simpl in *; constructor.
    + inversion Hr; subst. inversion F; subst. split; assumption.
    + inversion Hr; subst. inversion F; subst. apply IH; assumption.
Qed.

Lemma downsample_is_subsequence_witness :
  let p := (Number_of_Z 0, Number_of_Z 1) in
  let data := repeat p 87 in
  (2 <= DEFAULT_TARGET_POINTS /\ DEFAULT_TARGET_POINTS < data_length data
   /\ data_length data <= MAX_ARRAY_LENGTH)
  /\ List.length (downsampleData data DEFAULT_TARGET_POINTS) = 75%nat
  /\ StronglySorted Z.lt (sample_indices 87 75).
Proof.
  intros p data.
  assert (H1 : 2 <= DEFAULT_TARGET_POINTS) by (unfold DEFAULT_TARGET_POINTS; lia).
  assert (H2 : DEFAULT_TARGET_POINTS < data_length data) by reflexivity.
  assert (H3 : data_length data <= MAX_ARRAY_LENGTH) by (vm_compute; discriminate).
  split; [repeat split; assumption|].
  destruct (downsample_is_subsequence data DEFAULT_TARGET_POINTS H1 H2 H3)
    as (L & S & _).
  split; [exact L|exact S].
Defined.

(** The binary64 rounding is visible in the selection: for 87 points and the
    default budget, [i = 25] reads index 28, although 25 * 87 / 75 = 29. *)
Example sample_index_87_25 : sample_index 87 75 25 = 28 /\ (25 * 87) / 75 = 29.
Proof. split; vm_compute; reflexivity. Qed.

(** ** Suggestion matcher: the claims *)

Open Scope string_scope.




(** C6 (as the code has it).  On the text "bit" and the directory
    [bitcoin; bitcoin-cash] both coins are returned, "bitcoin" first.  Their
    ranking keys are equal (3, the length of the symbol): the order is the
    directory order, kept by the stable sort, and with the directory reversed
    "bitcoin-cash" comes first. *)
Theorem suggestions_bit_keep_directory_order :
  getSuggestions "bit" [bitcoin; bitcoin_cash] DEFAULT_MAX = [bitcoin; bitcoin_cash]
  /\ rank bitcoin = 3%Z /\ rank bitcoin_cash = 3%Z
  /\ getSuggestions "bit" [bitcoin_cash; bitcoin] DEFAULT_MAX
     = [bitcoin_cash; bitcoin].
Proof. repeat split; vm_compute; reflexivity. Qed.

(** C6 as stated does not hold: "bitcoin" is not ranked first on account of
    a shorter min-field length, since the two keys coincide. *)
Lemma suggestions_bit_not_by_rank :
  ~ (getSuggestions "bit" [bitcoin; bitcoin_cash] DEFAULT_MAX
     = [bitcoin; bitcoin_cash]
     /\ (rank bitcoin < rank bitcoin_cash)%Z).
Proof. intros [_ H]. vm_compute in H. discriminate. Qed.

(** ** Range fetcher: the claims *)

Lemma inputs_present_true (st : State) :
  inputs_present st = true <->
  exists sd ed, startDate st = Some sd /\ endDate st = Some ed
                /\ cryptoName st <> "".
Proof.
  unfold inputs_present.
  destruct (startDate st) as [sd|], (endDate st) as [ed|];
    try (split; [discriminate|intros (? & ? & ? & ? & ?); discriminate]).
  destruct (String.eqb_spec (cryptoName st) "") as [E|NE]; simpl; split.
  - discriminate.
  - intros (? & ? & _ & _ & H). contradiction.
  - intros _. exists sd, ed. auto.
  - reflexivity.
Qed.

(** C7.  With the identifier and both dates present, a resolved request
    stores the response as the price series and leaves error and suggestions
    cleared; a rejected request leaves the series cleared, sets the fixed
    message and sets the suggestions to [getSuggestions] of the typed
    identifier over the coin directory.  With an input missing the state is
    unchanged. *)
Theorem fetchCryptoData_outcomes (axios_get : Request -> Response) (st : State) :
  (inputs_present st = false -> exec (fetchCryptoData axios_get) st = st)
  /\ (forall sd ed,
        startDate st = Some sd -> endDate st = Some ed -> cryptoName st <> "" ->
        match axios_get (range_request (cryptoName st) sd ed) with
        | Resolved data =>
            exec (fetchCryptoData axios_get) st
            = {| startDate := startDate st; endDate := endDate st;
                 cryptoName := cryptoName st;
                 graphData := Some data;
                 allCoins := allCoins st;
                 suggestions := [];
                 error := None;
                 gridLineCount := gridLineCount st |}
        | Rejected =>
            exec (fetchCryptoData axios_get) st
            = {| startDate := startDate st; endDate := endDate st;
                 cryptoName := cryptoName st;
                 graphData := None;
                 allCoins := allCoins st;
                 suggestions := getSuggestions (cryptoName st) (allCoins st) 5;
                 error := Some "Token not found or API error. Please check the name or try a suggestion.";
                 gridLineCount := gridLineCount st |}
        end).
Proof.
  split.
  - intros H. unfold inputs_present in H. unfold fetchCryptoData, exec.
    destruct (startDate st), (endDate st); try reflexivity.
    destruct (String.eqb (cryptoName st) ""); [reflexivity|discriminate].
  - intros sd ed Hs He Hn. destruct st as [s e c g a sg er gl].
    cbn [startDate endDate cryptoName allCoins gridLineCount] in *. subst s e.
    unfold fetchCryptoData, exec. cbn [startDate endDate cryptoName allCoins].
    destruct (String.eqb_spec c ""); [contradiction|].
    destruct (axios_get (range_request c sd ed)); reflexivity.
Qed.

Lemma fetchCryptoData_outcomes_witness :
  let day := {| getTime := Number_of_Z 1700000000000 |} in
  let st := {| startDate := Some day; endDate := Some day;
               cryptoName := "bitcon"; graphData := None;
               allCoins := [bitcoin; bitcoin_cash];
               suggestions := []; error := None; gridLineCount := 6 |} in
  (startDate st = Some day /\ endDate st = Some day /\ cryptoName st <> "")
  /\ error (exec (fetchCryptoData (fun _ => Rejected)) st)
     = Some FETCH_ERROR.
Proof.
  intros day st.
  assert (H1 : startDate st = Some day) by reflexivity.
  assert (H2 : endDate st = Some day) by reflexivity.
  assert (H3 : cryptoName st <> "") by discriminate.
  split; [repeat split; assumption|].
  pose proof (proj2 (fetchCryptoData_outcomes (fun _ => Rejected) st) day day H1 H2 H3)
    as E.
  cbv beta iota in E. rewrite E. reflexivity.
Defined.

(** ** Smoothing: the claims *)

Lemma string_app_assoc (a b c : string) : (a ++ b) ++ c = a ++ (b ++ c).
Proof. induction a as [|ch a IH]; simpl; [reflexivity|]. rewrite IH. reflexivity. Qed.

Lemma string_app_nil_r (a : string) : a ++ "" = a.
Proof. induction a as [|ch a IH]; simpl; [reflexivity|]. rewrite IH. reflexivity. Qed.

Lemma nth_error_some_nth {A : Type} (l : list A) (i : nat) (d : A) :
  (i < List.length l)%nat -> nth_error l i = Some (nth i l d).
Proof. intros H. apply nth_error_nth'. exact H. Qed.

Lemma last_nth {A : Type} (l : list A) (d : A) :
  last l d = nth (List.length l - 1) l d.
Proof.
  induction l as [|a l IH]; [reflexivity|].
  destruct l as [|b l]; [reflexivity|].
  change (last (a :: b :: l) d) with (last (b :: l) d). rewrite IH.
  simpl. rewrite Nat.sub_0_r. reflexivity.
Qed.

Section SmoothPath.
Variable show_finite : Q -> string.
Variable points : list Point.
Variable d : Point.

Let n := List.length points.

Lemma smooth_body_step (path : string) (i : nat) :
  (i + 1 < n)%nat ->
  smooth_body show_finite points (Some path) i
  = Some (path ++ curve_to show_finite (clamped_segment points d i)).
Proof.
  intros Hi. unfold smooth_body, clamped_segment. fold n.
  assert (E0 : (if (0 <? i)%nat then nth_error points (i - 1) else nth_error points 0)
               = Some (nth (i - 1) points d)).
  { destruct (Nat.ltb_spec 0 i).
    - apply nth_error_some_nth. fold n. lia.
    - replace (i - 1)%nat with 0%nat by lia. apply nth_error_some_nth. fold n. lia. }
  rewrite E0.
  rewrite (nth_error_some_nth points i d) by (fold n; lia).
  rewrite (nth_error_some_nth points (i + 1) d) by (fold n; lia).
  destruct (Z.ltb_spec (Z.of_nat i) (Z.of_nat n - 2)) as [H|H].
  - rewrite (nth_error_some_nth points (i + 2) d) by (fold n; lia).
    rewrite Nat.min_l by lia. reflexivity.
  - rewrite Nat.min_r by lia.
    replace (n - 1)%nat with (i + 1)%nat by lia. reflexivity.
Qed.

Lemma smooth_fold (len : nat) :
  forall (a : nat) (path : string),
    (a + len < n)%nat \/ len = 0%nat ->
    fold_left (smooth_body show_finite points) (seq a len) (Some path)
    = Some (path ++ join (map (fun i => curve_to show_finite
                                          (clamped_segment points d i))
                              (seq a len))).
Proof.
  induction len as [|len IH]; intros a path H.
  - simpl. rewrite (string_app_nil_r path). reflexivity.
  - cbn [seq fold_left map join fold_right].
    rewrite smooth_body_step by lia.
    rewrite IH by lia. rewrite string_app_assoc. reflexivity.
Qed.
End SmoothPath.

Lemma createSmoothPath_segments (show_finite : Q -> string)
      (p0 p1 : Point) (rest : list Point) :
  let points := p0 :: p1 :: rest in
  createSmoothPath show_finite points
  = Some (move_to show_finite p0
          ++ join (map (fun i => curve_to show_finite (clamped_segment points p0 i))
                       (seq 0 (List.length points - 1)))).
Proof.
  intros points. unfold createSmoothPath.
  change (List.length points <? 2)%nat with false.
  change (nth_error points 0) with (Some p0).
  cbv iota. apply smooth_fold. left. simpl. lia.
Qed.

(** The text of one segment and of the whole path, with every
    interpolation written out. *)
Lemma curve_to_text (show_finite : Q -> string) (s : Segment) :
  curve_to show_finite s
  = " C " ++ Number_toString show_finite (x (cp1 s)) ++ " "
          ++ Number_toString show_finite (y (cp1 s)) ++ ", "
          ++ Number_toString show_finite (x (cp2 s)) ++ " "
          ++ Number_toString show_finite (y (cp2 s)) ++ ", "
          ++ Number_toString show_finite (x (endpoint s)) ++ " "
          ++ Number_toString show_finite (y (endpoint s)).
Proof.
  unfold curve_to, point_text. cbn [append]. do 3 f_equal.
  rewrite !string_app_assoc. cbn [append]. reflexivity.
Qed.

Lemma createSmoothPath_text (show_finite : Q -> string)
      (p0 p1 : Point) (rest : list Point) :
  let points := p0 :: p1 :: rest in
  createSmoothPath show_finite points
  = Some ("M " ++ Number_toString show_finite (x p0) ++ " "
               ++ Number_toString show_finite (y p0)
               ++ join (map (fun i =>
                          let s := clamped_segment points p0 i in
                          " C " ++ Number_toString show_finite (x (cp1 s)) ++ " "
                                ++ Number_toString show_finite (y (cp1 s)) ++ ", "
                                ++ Number_toString show_finite (x (cp2 s)) ++ " "
                                ++ Number_toString show_finite (y (cp2 s)) ++ ", "
                                ++ Number_toString show_finite (x (endpoint s)) ++ " "
                                ++ Number_toString show_finite (y (endpoint s)))
                        (seq 0 (List.length points - 1)))).
Proof.
  intros points.
  pose proof (createSmoothPath_segments show_finite p0 p1 rest) as E.
  cbv zeta in E. fold points in E. rewrite E. clear E.
  f_equal. unfold move_to, point_text.
  rewrite !string_app_assoc. do 4 f_equal.
  f_equal. apply map_ext. intros i. cbv zeta. apply curve_to_text.
Qed.

Lemma map_nth_succ {A : Type} (a d : A) (l : list A) :
  map (fun i => nth (i + 1) (a :: l) d) (seq 0 (List.length l)) = l.
Proof.
  assert (G : forall (l : list A) (s : nat) (pre : list A),
             List.length pre = s ->
             map (fun i => nth (i + 1) (a :: pre ++ l)%list d)
                 (seq s (List.length l)) = l).
  { clear l. induction l as [|b l IH]; intros s pre Hs; [reflexivity|].
    cbn [List.length seq map]. f_equal.
    - rewrite Nat.add_1_r. cbn [nth]. rewrite app_nth2 by lia.
      rewrite Hs, Nat.sub_diag. reflexivity.
    - specialize (IH (S s) (pre ++ [b])%list).
      rewrite <- app_assoc in IH. cbn [app] in IH. apply IH.
      rewrite length_app. cbn [List.length]. lia. }
  apply (G l 0%nat []). reflexivity.
Qed.

(** C8.  For at least two points the returned text is
    ["M x0 y0"] followed, for each [i = 0 .. n-2], by
    [" C cp1x cp1y, cp2x cp2y, p2x p2y"], where [p1 = points[i]],
    [p2 = points[i+1]], the control points are [p1 + (p2 - p0) * tension]
    and [p2 - (p3 - p1) * tension] in binary64 arithmetic, [tension] is the
    binary64 value of 0.2, [p0 = points[i-1]] and [p3 = points[i+2]].  At
    the two ends the missing neighbour is the boundary point itself
    ([p0 = p1] when [i = 0], [p3 = p2] when [i = n-2]), so all four are
    points of the series.  Every number is written as the template literal
    writes it ([text]). *)
Theorem smooth_path_control_points (show_finite : Q -> string)
        (first second : Point) (rest : list Point) :
  let points := first :: second :: rest in
  let n := List.length points in
  let text := fun v : number =>
    match v with
    | NaN => "NaN"
    | Infinity false => "Infinity"
    | Infinity true => "-Infinity"
    | Fin q => show_finite q
    end in
  let p0 := fun i => nth (i - 1) points first in
  let p1 := fun i => nth i points first in
  let p2 := fun i => nth (i + 1) points first in
  let p3 := fun i => nth (Nat.min (i + 2) (n - 1)) points first in
  let cp1x := fun i =>
    num_add (x (p1 i)) (num_mul (num_sub (x (p2 i)) (x (p0 i))) tension) in
  let cp1y := fun i =>
    num_add (y (p1 i)) (num_mul (num_sub (y (p2 i)) (y (p0 i))) tension) in
  let cp2x := fun i =>
    num_sub (x (p2 i)) (num_mul (num_sub (x (p3 i)) (x (p1 i))) tension) in
  let cp2y := fun i =>
    num_sub (y (p2 i)) (num_mul (num_sub (y (p3 i)) (y (p1 i))) tension) in
  createSmoothPath show_finite points
  = Some ("M " ++ text (x first) ++ " " ++ text (y first)
          ++ join (map (fun i =>
                     " C " ++ text (cp1x i) ++ " " ++ text (cp1y i) ++ ", "
                           ++ text (cp2x i) ++ " " ++ text (cp2y i) ++ ", "
                           ++ text (x (p2 i)) ++ " " ++ text (y (p2 i)))
                   (seq 0 (n - 1))))
  /\ tension = Fin (3602879701896397 # 18014398509481984)
  /\ forall i, (i < n - 1)%nat ->
       (In (p0 i) points /\ In (p1 i) points /\ In (p2 i) points
        /\ In (p3 i) points)
       /\ (i = 0%nat -> p0 i = p1 i)
       /\ (i = (n - 2)%nat -> p3 i = p2 i).
Proof.
  intros points n text p0 p1 p2 p3 cp1x cp1y cp2x cp2y.
  split; [|split].
  - exact (createSmoothPath_text show_finite first second rest).
  - vm_compute. reflexivity.
  - intros i Hi. split; [|split].
    + unfold p0, p1, p2, p3. repeat split; apply nth_In; fold n; lia.
    + intros ->. reflexivity.
    + intros ->. unfold p3, p2. f_equal. unfold n. simpl List.length. lia.
Qed.

Lemma smooth_path_control_points_witness :
  let a := {| x := Number_of_Z 40; y := Number_of_Z 410 |} in
  let b := {| x := Number_of_Z 44; y := Number_of_Z 60 |} in
  (0 < List.length [a; b] - 1)%nat
  /\ createSmoothPath (fun _ => "#") [a; b] = Some "M # # C # #, # #, # #"
  /\ In (nth (0 + 1) [a; b] a) [a; b].
Proof.
  intros a b.
  assert (H : (0 < List.length [a; b] - 1)%nat) by (simpl; lia).
  split; [exact H|].
  destruct (smooth_path_control_points (fun _ => "#") a b []) as (E & _ & K).
  split; [exact E|].
  destruct (K 0%nat H) as ((_ & _ & I2 & _) & _). exact I2.
Defined.

(** C10.  Fewer than two points give the empty path.  For [n >= 2] points
    the returned text is one move-to command ["M x0 y0"] at the first point
    followed by exactly [n - 1] cubic segments, each written
    [" C cp1x cp1y, cp2x cp2y, px py"]; the segments end at the points after
    the first, in order, so the last one ends at the last point. *)
Theorem smooth_path_shape (show_finite : Q -> string) (points : list Point) :
  let text := fun v : number =>
    match v with
    | NaN => "NaN"
    | Infinity false => "Infinity"
    | Infinity true => "-Infinity"
    | Fin q => show_finite q
    end in
  ((List.length points < 2)%nat -> createSmoothPath show_finite points = Some "")
  /\ ((2 <= List.length points)%nat ->
      exists (first : Point) (segments : list Segment) (final : Segment),
        hd_error points = Some first
        /\ createSmoothPath show_finite points
           = Some ("M " ++ text (x first) ++ " " ++ text (y first)
                   ++ join (map (fun s =>
                              " C " ++ text (x (cp1 s)) ++ " "
                                    ++ text (y (cp1 s)) ++ ", "
                                    ++ text (x (cp2 s)) ++ " "
                                    ++ text (y (cp2 s)) ++ ", "
                                    ++ text (x (endpoint s)) ++ " "
                                    ++ text (y (endpoint s)))
                            segments))
        /\ List.length segments = (List.length points - 1)%nat
        /\ map endpoint segments = tl points
        /\ last segments final = final
        /\ endpoint final = last points first).
Proof.
  intros text. split.
  - intros H. unfold createSmoothPath.
    destruct (Nat.ltb_spec (List.length points) 2); [reflexivity|lia].
  - intros H. destruct points as [|first [|second rest]]; simpl in H; try lia.
    set (points := first :: second :: rest).
    set (seg := fun i => clamped_segment points first i).
    exists first, (map seg (seq 0 (List.length points - 1))),
           (seg (List.length points - 2)%nat).
    split; [reflexivity|]. split; [|split; [|split; [|split]]].
    + rewrite map_map.
      exact (createSmoothPath_text show_finite first second rest).
    + rewrite length_map, length_seq. reflexivity.
    + rewrite map_map. unfold seg, clamped_segment, segment_of. cbn [endpoint].
      unfold points.
      replace (List.length (first :: second :: rest) - 1)%nat
        with (List.length (second :: rest)) by (cbn [List.length]; lia).
      apply (map_nth_succ first first (second :: rest)).
    + replace (List.length points - 1)%nat with (S (List.length rest))
        by (simpl; lia).
      rewrite seq_S, map_app. simpl map at 2. rewrite last_last.
      f_equal. simpl. lia.
    + unfold seg, clamped_segment, segment_of. cbn [endpoint].
      rewrite last_nth. f_equal. simpl List.length. lia.
Qed.

Lemma smooth_path_shape_witness :
  let a := {| x := Number_of_Z 40; y := Number_of_Z 410 |} in
  let b := {| x := Number_of_Z 44; y := Number_of_Z 60 |} in
  let c := {| x := Number_of_Z 48; y := Number_of_Z 200 |} in
  (2 <= List.length [a; b; c])%nat
  /\ exists segments,
       createSmoothPath (fun _ => "#") [a; b; c]
       = Some "M # # C # #, # #, # # C # #, # #, # #"
       /\ List.length segments = 2%nat
       /\ map endpoint segments = [b; c].
Proof.
  intros a b c.
  assert (H : (2 <= List.length [a; b; c])%nat) by (simpl; lia).
  split; [exact H|].
  destruct (proj2 (smooth_path_shape (fun _ => "#") [a; b; c]) H)
    as (first & segments & final & _ & _ & L & E & _).
  exists segments. split; [vm_compute; reflexivity|]. split; [exact L|exact E].
Defined.

(** ** Currency formatting: the claims *)

Lemma literal_exact_values :
  literal 1000000 = Fin 1000000 /\ literal 10000 = Fin 10000 /\ literal 1 = Fin 1.
Proof. repeat split; vm_compute; reflexivity. Qed.

Lemma Qle_bool_false (a b : Q) : (b < a)%Q -> Qle_bool a b = false.
Proof.
  intros H. destruct (Qle_bool a b) eqn:E; [|reflexivity].
  apply Qle_bool_iff in E. exfalso. apply (Qlt_not_le _ _ H E).
Qed.

Lemma Qle_bool_true (a b : Q) : (a <= b)%Q -> Qle_bool a b = true.
Proof. intros H. apply Qle_bool_iff. exact H. Qed.

Lemma Qfloor_unique (q : Q) (k : Z) :
  (inject_Z k <= q)%Q -> (q < inject_Z k + 1)%Q -> Qfloor q = k.
Proof.
  intros H1 H2. destruct (Qfloor_bounds q) as [F1 F2].
  assert (Qfloor q <= k)%Z by (apply inject_Z_lt_1; lra).
  assert (k <= Qfloor q)%Z by (apply inject_Z_lt_1; lra).
  lia.
Qed.

Lemma string_length_app (a b : string) :
  String.length (a ++ b) = (String.length a + String.length b)%nat.
Proof. induction a as [|c a IH]; simpl; [reflexivity|]. rewrite IH. reflexivity. Qed.

Lemma length_zeros (k : nat) : String.length (zeros k) = k.
Proof. induction k as [|k IH]; simpl; [reflexivity|]. rewrite IH. reflexivity. Qed.

Lemma take_drop (k : nat) (s : string) : take k s ++ drop k s = s.
Proof.
  revert s. induction k as [|k IH]; intros [|c s]; simpl; try reflexivity.
  rewrite IH. reflexivity.
Qed.

Lemma length_drop (k : nat) (s : string) :
  String.length (drop k s) = (String.length s - k)%nat.
Proof.
  revert s. induction k as [|k IH]; intros [|c s]; simpl; try reflexivity.
  apply IH.
Qed.

(** Within the fixed-notation range, [toFixed] writes its argument with
    [f] decimals. *)
Lemma toFixed_fraction_digits (show_finite : Q -> string) (q : Q) (f : nat) :
  (0 <= q)%Q -> (q < inject_Z (10 ^ 21))%Q -> (0 < f)%nat ->
  fixed_decimals q f (toFixed show_finite (Fin q) f).
Proof.
  intros H0 H21 Hf. unfold fixed_decimals, toFixed.
  assert (En : Qneg q = false) by (unfold Qneg; rewrite Qle_bool_true; auto).
  rewrite En.
  assert (Ea : (Qabs q == q)%Q) by (apply Qabs_pos; exact H0).
  rewrite Qle_bool_false by (rewrite Ea; exact H21).
  assert (Efl : Qfloor (Qabs q * inject_Z (10 ^ Z.of_nat f) + (1 # 2))
                = Qfloor (q * inject_Z (10 ^ Z.of_nat f) + (1 # 2))).
  { apply Qfloor_comp. rewrite Ea. reflexivity. }
  rewrite Efl.
  set (m0 := digits (Z.to_N (Qfloor (q * inject_Z (10 ^ Z.of_nat f) + (1 # 2))))).
  destruct (Nat.eqb_spec f 0); [lia|].
  set (m1 := if (String.length m0 <=? f)%nat
             then zeros (f + 1 - String.length m0) ++ m0 else m0).
  assert (L1 : (f + 1 <= String.length m1)%nat).
  { unfold m1. destruct (Nat.leb_spec (String.length m0) f).
    - rewrite string_length_app, length_zeros. lia.
    - lia. }
  exists (take (String.length m1 - f) m1), (drop (String.length m1 - f) m1).
  exists (if (String.length m0 <=? f)%nat then (f + 1 - String.length m0)%nat
          else 0%nat).
  split; [reflexivity|]. split; [rewrite length_drop; lia|]. split.
  - pose proof (take_drop (String.length m1 - f) m1) as E.
    apply (f_equal String.length) in E.
    rewrite string_length_app, length_drop in E. lia.
  - rewrite take_drop. unfold m1.
    destruct (String.length m0 <=? f)%nat; reflexivity.
Qed.

(** On a non-negative integer, [toLocaleString] is the grouped digits. *)
Lemma toLocaleString_integer (z : Z) :
  (0 <= z)%Z ->
  toLocaleString (Fin (inject_Z z)) = group3 (digits (Z.to_N z)).
Proof.
  intros Hz. unfold toLocaleString.
  assert (En : Qneg (inject_Z z) = false).
  { unfold Qneg. rewrite Qle_bool_true; [reflexivity|].
    change 0%Q with (inject_Z 0). rewrite <- Zle_Qle. exact Hz. }
  rewrite En.
  assert (Ef : Qfloor (Qabs (inject_Z z) * 1000 + (1 # 2)) = (z * 1000)%Z).
  { assert (Ea : (Qabs (inject_Z z) == inject_Z z)%Q).
    { apply Qabs_pos. change 0%Q with (inject_Z 0). rewrite <- Zle_Qle. exact Hz. }
    apply Qfloor_unique; rewrite Ea, inject_Z_mult;
      change (inject_Z 1000) with 1000%Q; lra. }
  rewrite Ef.
  assert (En1 : (Z.to_N (z * 1000) / 1000 = Z.to_N z)%N).
  { rewrite Z2N.inj_mul by lia. apply N.div_mul. discriminate. }
  assert (En2 : (Z.to_N (z * 1000) mod 1000 = 0)%N).
  { rewrite Z2N.inj_mul by lia. apply N.Div0.mod_mul. }
  rewrite En1, En2. cbn [N.eqb]. simpl append at 1.
  rewrite string_app_nil_r. reflexivity.
Qed.

(** From one million up to 1e26 the quotient by one million is finite and
    within the fixed-notation range of [toFixed]. *)
Lemma million_quotient (q : Q) :
  (1000000 <= q)%Q -> (q < inject_Z (10 ^ 26))%Q ->
  num_div (Fin q) (Fin 1000000) = Fin (fl (q / 1000000))
  /\ (0 <= fl (q / 1000000))%Q /\ (fl (q / 1000000) < inject_Z (10 ^ 21))%Q.
Proof.
  intros H1 H2. set (v := (q / 1000000)%Q).
  assert (V1 : (1 <= v)%Q) by (unfold v; apply Qle_shift_div_l; [reflexivity|lra]).
  assert (V2 : (v <= inject_Z (10 ^ 20))%Q).
  { unfold v. apply Qle_shift_div_r; [reflexivity|].
    change (inject_Z (10 ^ 20) * 1000000)%Q with (inject_Z (10 ^ 26)). lra. }
  assert (F1 : (1 <= fl v)%Q).
  { rewrite <- (fl_Z 1) by lia. apply fl_mono; [reflexivity|exact V1]. }
  assert (F20 : (fl (inject_Z (10 ^ 20)) == inject_Z (10 ^ 20))%Q).
  { rewrite (fl_comp (inject_Z (10 ^ 20)) (inject_Z (5 ^ 20) * pow2 20))
      by reflexivity.
    rewrite fl_repr by (unfold emin; lia). reflexivity. }
  assert (F2 : (fl v <= inject_Z (10 ^ 20))%Q).
  { rewrite <- F20. apply fl_mono; lra. }
  split; [|split].
  - unfold num_div. change (Qzero 1000000) with false. cbv iota. fold v.
    unfold Number_round.
    destruct (Qle_bool (pow2 1024) (Qabs (fl v))) eqn:E; [|reflexivity].
    exfalso. apply Qle_bool_iff in E.
    assert (F0 : (0 <= fl v)%Q) by lra.
    rewrite (Qabs_pos _ F0) in E.
    assert (Hm : (pow2 67 <= pow2 1024)%Q) by (apply pow2_mono; discriminate).
    assert (H67 : (inject_Z (10 ^ 20) < pow2 67)%Q) by reflexivity.
    set (P := pow2 1024) in *. clearbody P. lra.
  - lra.
  - assert (H21 : (inject_Z (10 ^ 20) < inject_Z (10 ^ 21))%Q) by reflexivity. lra.
Qed.

(** C4.  The formatter selects the rendering by magnitude: from 1e6 on, the
    binary64 quotient [v / 1000000] printed by [toFixed(2)] and the suffix
    "M"; from 1e4 up to 1e6, the integer [Math.round(v)] with its digits
    grouped by three; from 1 up to 1e4, [toFixed(2)]; below 1, [toFixed(5)];
    always after "$".  Where [toFixed] prints in fixed notation (up to 1e26
    in the first case, from 0 on in the last) its output has exactly that
    many decimals.
    The four examples of the specification evaluate as it says. *)
Theorem formatCurrency_by_magnitude (show_finite : Q -> string) (q : Q) :
  ((1000000 <= q)%Q ->
     formatCurrency show_finite (Fin q)
     = "$" ++ toFixed show_finite (num_div (Fin q) (Fin 1000000)) 2 ++ "M"
     /\ ((q < inject_Z (10 ^ 26))%Q ->
         num_div (Fin q) (Fin 1000000) = Fin (fl (q / 1000000))
         /\ fixed_decimals (fl (q / 1000000)) 2
              (toFixed show_finite (Fin (fl (q / 1000000))) 2)))
  /\ ((10000 <= q)%Q -> (q < 1000000)%Q ->
     formatCurrency show_finite (Fin q)
     = "$" ++ toLocaleString (Math_round (Fin q))
     /\ toLocaleString (Math_round (Fin q))
        = group3 (digits (Z.to_N (Qfloor (q + (1 # 2))))))
  /\ ((1 <= q)%Q -> (q < 10000)%Q ->
     formatCurrency show_finite (Fin q) = "$" ++ toFixed show_finite (Fin q) 2
     /\ fixed_decimals q 2 (toFixed show_finite (Fin q) 2))
  /\ ((q < 1)%Q ->
     formatCurrency show_finite (Fin q) = "$" ++ toFixed show_finite (Fin q) 5
     /\ ((0 <= q)%Q -> fixed_decimals q 5 (toFixed show_finite (Fin q) 5)))
  /\ formatCurrency show_finite (literal 1500000) = "$1.50M"
  /\ formatCurrency show_finite (literal 15000) = "$15,000"
  /\ formatCurrency show_finite (literal (25 # 10)) = "$2.50"
  /\ formatCurrency show_finite (literal (42 # 100000)) = "$0.00042".
Proof.
  destruct literal_exact_values as (L6 & L4 & L1).
  unfold formatCurrency. rewrite L6, L4, L1. cbn [num_ge].
  assert (B : (10000 < inject_Z (10 ^ 21))%Q) by reflexivity.
  split; [|split; [|split; [|split]]].
  - intros H. rewrite (Qle_bool_true _ _ H). split; [reflexivity|].
    intros H26. destruct (million_quotient q H H26) as (E & F0 & F21).
    split; [exact E|]. apply toFixed_fraction_digits; [exact F0|exact F21|lia].
  - intros H1 H2. rewrite (Qle_bool_false _ _ H2), (Qle_bool_true _ _ H1).
    split; [reflexivity|]. cbn [Math_round]. apply toLocaleString_integer.
    apply (Qfloor_ge 0). change (inject_Z 0) with 0%Q. lra.
  - intros H1 H2.
    rewrite (Qle_bool_false 1000000 q) by lra.
    rewrite (Qle_bool_false _ _ H2), (Qle_bool_true _ _ H1).
    split; [reflexivity|]. apply toFixed_fraction_digits; [lra|lra|lia].
  - intros H.
    rewrite (Qle_bool_false 1000000 q) by lra.
    rewrite (Qle_bool_false 10000 q) by lra.
    rewrite (Qle_bool_false _ _ H).
    split; [reflexivity|]. intros H0. apply toFixed_fraction_digits; [lra|lra|lia].
  - repeat split; vm_compute; reflexivity.
Qed.

Lemma formatCurrency_by_magnitude_witness :
  ((1000000 <= 2500000)%Q /\ (10000 <= 31415)%Q /\ (31415 < 1000000)%Q
   /\ (1 <= 7)%Q /\ (7 < 10000)%Q /\ (0 < 1)%Q)
  /\ formatCurrency (fun _ => "#") (Fin 2500000) = "$2.50M"
  /\ formatCurrency (fun _ => "#") (Fin 31415) = "$31,415"
  /\ formatCurrency (fun _ => "#") (Fin 7) = "$7.00"
  /\ formatCurrency (fun _ => "#") (Fin 0) = "$0.00000".
Proof.
  assert (H1 : (1000000 <= 2500000)%Q) by discriminate.
  assert (H2 : (10000 <= 31415)%Q) by discriminate.
  assert (H3 : (31415 < 1000000)%Q) by reflexivity.
  assert (H4 : (1 <= 7)%Q) by discriminate.
  assert (H5 : (7 < 10000)%Q) by reflexivity.
  assert (H6 : (0 < 1)%Q) by reflexivity.
  split; [repeat split; assumption|].
  split; [|split; [|split]].
  - rewrite (proj1 (proj1 (formatCurrency_by_magnitude (fun _ => "#") 2500000) H1)).
    vm_compute. reflexivity.
  - rewrite (proj1 (proj1 (proj2 (formatCurrency_by_magnitude (fun _ => "#") 31415))
                      H2 H3)).
    vm_compute. reflexivity.
  - rewrite (proj1 (proj1 (proj2 (proj2 (formatCurrency_by_magnitude (fun _ => "#") 7)))
                      H4 H5)).
    vm_compute. reflexivity.
  - rewrite (proj1 (proj1 (proj2 (proj2 (proj2
               (formatCurrency_by_magnitude (fun _ => "#") 0)))) H6)).
    vm_compute. reflexivity.
Defined.

(* ================================================================= *)
(** * Further properties *)

(** ** The matcher *)

Open Scope string_scope.

Lemma toLowerCase_empty (s : string) : toLowerCase s = "" <-> s = "".
Proof. destruct s; simpl; split; congruence. Qed.

Lemma getSuggestions_unfold (input : string) (coins : list CoinInfo) (max : Z) :
  input <> "" ->
  getSuggestions input coins max
  = Array_slice0 (Array_sort compare_coins
                    (filter (coin_matches (toLowerCase input)) coins)) max.
Proof.
  intros Hne. unfold getSuggestions.
  destruct (String.eqb_spec input ""); [contradiction|reflexivity].
Qed.

(** X1.  The matcher does not see the case of the typed text. *)
Theorem getSuggestions_input_case (a b : string) (coins : list CoinInfo) (max : Z) :
  toLowerCase a = toLowerCase b ->
  getSuggestions a coins max = getSuggestions b coins max.
Proof.
  intros E. destruct (string_dec a "") as [Ha|Ha].
  - subst a. simpl in E. symmetry in E. apply (proj1 (toLowerCase_empty b)) in E. subst b.
    reflexivity.
  - assert (Hb : b <> "").
    { intros Hb. subst b. simpl in E. apply (proj1 (toLowerCase_empty a)) in E.
      contradiction. }
    rewrite (getSuggestions_unfold a coins max Ha),
            (getSuggestions_unfold b coins max Hb), E. reflexivity.
Qed.

Lemma getSuggestions_input_case_witness :
  toLowerCase "BiT" = toLowerCase "bit"
  /\ getSuggestions "BiT" [bitcoin; bitcoin_cash] DEFAULT_MAX
     = getSuggestions "bit" [bitcoin; bitcoin_cash] DEFAULT_MAX.
Proof.
  assert (H : toLowerCase "BiT" = toLowerCase "bit") by reflexivity.
  split; [exact H|]. apply getSuggestions_input_case. exact H.
Defined.

(** Stability of the sort: the elements of one key keep their order. *)
Section StableSort.
Context {A : Type}.
Variable key : A -> Z.
Let cmp (a b : A) : Z := (key a - key b)%Z.

Lemma sort_insert_filter_key (k : Z) (a : A) (l : list A) :
  StronglySorted (fun x y => (key x <= key y)%Z) l ->
  filter (fun c => Z.eqb (key c) k) (sort_insert cmp a l)
  = filter (fun c => Z.eqb (key c) k) (a :: l).
Proof.
  intros Hs. induction Hs as [|b l Hs IH Hb]; [reflexivity|].
  cbn [sort_insert]. destruct (Z.leb_spec (cmp a b) 0) as [Hle|Hgt]; [reflexivity|].
  unfold cmp in Hgt.
  cbn [filter] in *. rewrite IH.
  destruct (Z.eqb_spec (key a) k) as [Ea|Na]; [|reflexivity].
  destruct (Z.eqb_spec (key b) k) as [Eb|Nb]; [lia|reflexivity].
Qed.

Lemma Array_sort_filter_key (k : Z) (l : list A) :
  filter (fun c => Z.eqb (key c) k) (Array_sort cmp l)
  = filter (fun c => Z.eqb (key c) k) l.
Proof.
  induction l as [|a l IH]; [reflexivity|].
  cbn [Array_sort fold_right].
  rewrite sort_insert_filter_key by apply (Array_sort_sorted key).
  cbn [filter]. fold (Array_sort cmp l). rewrite IH. reflexivity.
Qed.
End StableSort.


Lemma NoDup_firstn {A : Type} (k : nat) (l : list A) : NoDup l -> NoDup (firstn k l).
Proof.
  intros H. revert k. induction H as [|a l Ha H IH]; intros [|k]; simpl;
    try constructor.
  - intros Hin. apply Ha. apply (In_firstn a k l). exact Hin.
  - apply IH.
Qed.

(** Filtering keeps keys distinct. *)
Lemma NoDup_map_filter {K V : Type} (key : V -> K) (keep : V -> bool)
      (items : list V) :
  NoDup (map key items) -> NoDup (map key (filter keep items)).
Proof.
  intros H. induction items as [|a l IH]; simpl; [constructor|].
  simpl in H. inversion H as [|? ? Ha H']; subst.
  destruct (keep a); simpl; [constructor|]; auto.
  intros Hin. apply Ha. apply in_map_iff in Hin. destruct Hin as (c & E & Hc).
  apply in_map_iff. exists c. split; [exact E|]. apply filter_In in Hc. tauto.
Qed.

Lemma getSuggestions_default (input : string) (coins : list CoinInfo) :
  input <> "" ->
  getSuggestions input coins DEFAULT_MAX
  = firstn 5 (Array_sort compare_coins (matching_coins input coins)).
Proof.
  intros Hne. rewrite (getSuggestions_unfold input coins DEFAULT_MAX Hne).
  rewrite Array_slice0_firstn by (unfold DEFAULT_MAX; lia). reflexivity.
Qed.



(** X3.  The sort is stable: among the matching coins of one rank, the
    ones offered are the first of the directory, in directory order. *)
Theorem getSuggestions_ties_in_directory_order
        (input : string) (coins : list CoinInfo) (k : Z) :
  input <> "" ->
  exists rest,
    filter (fun c => Z.eqb (rank c) k) (matching_coins input coins)
    = (filter (fun c => Z.eqb (rank c) k) (getSuggestions input coins DEFAULT_MAX)
       ++ rest)%list.
Proof.
  intros Hne. rewrite (getSuggestions_default input coins Hne).
  set (sorted := Array_sort compare_coins (matching_coins input coins)).
  exists (filter (fun c => Z.eqb (rank c) k) (skipn 5 sorted)).
  rewrite <- filter_app, firstn_skipn. unfold sorted.
  symmetry. apply (Array_sort_filter_key rank).
Qed.

Lemma getSuggestions_ties_in_directory_order_witness :
  "bit" <> ""
  /\ exists rest,
       filter (fun c => Z.eqb (rank c) 3) (matching_coins "bit" [bitcoin_cash; bitcoin])
       = (filter (fun c => Z.eqb (rank c) 3)
                 (getSuggestions "bit" [bitcoin_cash; bitcoin] DEFAULT_MAX)
          ++ rest)%list.
Proof.
  assert (H : "bit" <> "") by discriminate.
  split; [exact H|].
  exact (getSuggestions_ties_in_directory_order "bit" [bitcoin_cash; bitcoin] 3 H).
Defined.

(** X4.  The list items are keyed by coin id: when the ids of the
    directory are pairwise distinct, so are the ids of the suggestions. *)
Theorem getSuggestions_unique_keys (input : string) (coins : list CoinInfo) (max : Z) :
  NoDup (map id coins) -> NoDup (map id (getSuggestions input coins max)).
Proof.
  intros H. unfold getSuggestions.
  destruct (String.eqb input ""); [constructor|].
  set (m := filter (coin_matches (toLowerCase input)) coins).
  assert (Hm : NoDup (map id m)) by (apply NoDup_map_filter; exact H).
  assert (Hs : NoDup (map id (Array_sort compare_coins m))).
  { eapply Permutation_NoDup; [|exact Hm].
    apply Permutation_map. apply (Array_sort_perm rank). }
  unfold Array_slice0. rewrite <- firstn_map. apply NoDup_firstn. exact Hs.
Qed.

Lemma getSuggestions_unique_keys_witness :
  NoDup (map id [bitcoin; bitcoin_cash])
  /\ NoDup (map id (getSuggestions "bit" [bitcoin; bitcoin_cash] DEFAULT_MAX)).
Proof.
  assert (H : NoDup (map id [bitcoin; bitcoin_cash])).
  { repeat constructor; simpl; intuition discriminate. }
  split; [exact H|]. apply getSuggestions_unique_keys. exact H.
Defined.

(** ** The fetch and the directory loader *)

Open Scope Q_scope.
Open Scope string_scope.

Lemma fl_nonneg (x : Q) : (0 < x)%Q -> (0 <= fl x)%Q.
Proof.
  intros Hx. rewrite (fl_pos_eq x Hx).
  pose proof (pow2_pos (fexp x)) as P.
  apply Qmult_le_0_compat; [|lra].
  change 0%Q with (inject_Z 0). rewrite <- Zle_Qle.
  rewrite <- (rne_inject_Z 0). apply rne_mono.
  change (inject_Z 0) with 0%Q. apply Qle_shift_div_l; [exact P|]. lra.
Qed.

Lemma Number_round_below (q : Q) (b : Z) :
  (0 <= fl q)%Q -> (fl q < inject_Z b)%Q -> (b <= 2 ^ 1000)%Z ->
  Number_round q = Fin (fl q).
Proof.
  intros H0 H1 Hb. unfold Number_round.
  destruct (Qle_bool (pow2 1024) (Qabs (fl q))) eqn:E; [|reflexivity].
  exfalso. apply Qle_bool_iff in E. rewrite (Qabs_pos _ H0) in E.
  assert (Hm : (pow2 1000 <= pow2 1024)%Q) by (apply pow2_mono; discriminate).
  assert (Hb' : (inject_Z b <= pow2 1000)%Q).
  { rewrite (pow2_Z 1000) by lia. rewrite <- Zle_Qle. exact Hb. }
  set (P := pow2 1024) in *. set (P' := pow2 1000) in *. clearbody P P'. lra.
Qed.

Lemma whole_seconds (ms : Z) :
  (0 <= ms <= MAX_TIME)%Z ->
  Math_floor (num_div (Number_of_Z ms) (literal 1000))
  = Number_of_Z (ms / 1000).
Proof.
  intros Hms. unfold Number_of_Z.
  assert (L : literal 1000 = Fin 1000) by (vm_compute; reflexivity).
  rewrite L. unfold num_div. change (Qzero 1000) with false. cbv iota.
  set (k := (ms / 1000)%Z).
  pose proof (Z.div_mod ms 1000 ltac:(lia)) as Hdm.
  pose proof (Z.mod_pos_bound ms 1000 ltac:(lia)) as Hr. fold k in Hdm.
  set (r := (ms mod 1000)%Z) in *.
  assert (Hk : (0 <= k <= 8640000000000)%Z).
  { unfold k. split; [apply Z.div_pos; lia|].
    apply Z.div_le_upper_bound; unfold MAX_TIME in Hms; lia. }
  set (x := (inject_Z ms / 1000)%Q).
  assert (Ex : (x == inject_Z k + inject_Z r * (1 # 1000))%Q).
  { unfold x. rewrite Hdm, inject_Z_plus, inject_Z_mult.
    change (inject_Z 1000) with 1000%Q. field. }
  assert (R0 : (0 <= inject_Z r)%Q)
    by (change 0%Q with (inject_Z 0); rewrite <- Zle_Qle; lia).
  assert (R1 : (inject_Z r <= 999)%Q)
    by (change 999%Q with (inject_Z 999); rewrite <- Zle_Qle; lia).
  assert (K0 : (0 <= inject_Z k)%Q)
    by (change 0%Q with (inject_Z 0); rewrite <- Zle_Qle; lia).
  assert (K1 : (inject_Z k <= 8640000000000)%Q)
    by (change 8640000000000%Q with (inject_Z 8640000000000); rewrite <- Zle_Qle; lia).
  assert (Xl : (inject_Z k <= x)%Q) by (rewrite Ex; lra).
  assert (Xu : (x <= inject_Z k + (999 # 1000))%Q) by (rewrite Ex; lra).
  destruct (Z.eq_dec ms 0) as [->|Hnz].
  { vm_compute. reflexivity. }
  assert (Hx : (0 < x)%Q).
  { unfold x. apply Qlt_shift_div_l; [reflexivity|].
    change (0 * 1000)%Q with (inject_Z 0). rewrite <- Zlt_Qlt. lia. }
  assert (Fl : (inject_Z k <= fl x)%Q).
  { destruct (Z.eq_dec k 0) as [E0|N0].
    - rewrite E0. apply fl_nonneg. exact Hx.
    - rewrite <- (fl_Z k) by lia. apply fl_mono; [apply inject_Z_pos; lia|exact Xl]. }
  assert (Fu : (fl x < inject_Z k + 1)%Q).
  { destruct (Qlt_le_dec x 1) as [Hlt|Hge].
    - assert (k = 0%Z).
      { apply Z.le_antisymm; [|lia]. apply inject_Z_lt_1.
        change (inject_Z 0) with 0%Q. lra. }
      subst k. rewrite H in *. change (inject_Z 0) with 0%Q in *.
      assert (F9 : (fl (999 # 1000) < 1)%Q) by (vm_compute; reflexivity).
      assert (fl x <= fl (999 # 1000))%Q by (apply fl_mono; lra). lra.
    - destruct (fl_rel_err x Hge) as [F _]. rewrite eps53 in F. lra. }
  rewrite (Number_round_below x (k + 1)).
  - cbn [Math_floor]. do 2 f_equal. apply Qfloor_unique; assumption.
  - lra.
  - rewrite inject_Z_plus. exact Fu.
  - lia.
Qed.

Lemma fetchCryptoData_cases (axios_get : Request -> Response) (st : State) :
  (inputs_present st = false /\ exec (fetchCryptoData axios_get) st = st)
  \/ (exists sd ed data,
        startDate st = Some sd /\ endDate st = Some ed /\ cryptoName st <> ""
        /\ axios_get (range_request (cryptoName st) sd ed) = Resolved data
        /\ exec (fetchCryptoData axios_get) st
           = {| startDate := startDate st; endDate := endDate st;
                cryptoName := cryptoName st; graphData := Some data;
                allCoins := allCoins st; suggestions := [];
                error := None; gridLineCount := gridLineCount st |})
  \/ (exists sd ed,
        startDate st = Some sd /\ endDate st = Some ed /\ cryptoName st <> ""
        /\ axios_get (range_request (cryptoName st) sd ed) = Rejected
        /\ exec (fetchCryptoData axios_get) st
           = {| startDate := startDate st; endDate := endDate st;
                cryptoName := cryptoName st; graphData := None;
                allCoins := allCoins st;
                suggestions := getSuggestions (cryptoName st) (allCoins st)
                                 DEFAULT_MAX;
                error := Some FETCH_ERROR;
                gridLineCount := gridLineCount st |}).
Proof.
  destruct st as [s e c g a sg er gl]. unfold fetchCryptoData, exec.
  cbn [startDate endDate cryptoName allCoins gridLineCount].
  unfold inputs_present. cbn [startDate endDate cryptoName].
  destruct s as [sd|]; [|left; split; reflexivity].
  destruct e as [ed|]; [|left; split; reflexivity].
  destruct (String.eqb_spec c ""); [left; split; reflexivity|].
  destruct (axios_get (range_request c sd ed)) as [data|] eqn:E.
  - right. left. exists sd, ed, data.
    split; [reflexivity|]. split; [reflexivity|]. split; [assumption|].
    split; [exact E|]. reflexivity.
  - right. right. exists sd, ed.
    split; [reflexivity|]. split; [reflexivity|]. split; [assumption|].
    split; [exact E|]. reflexivity.
Qed.

(** X5.  Submitting again against a network that answers the same way
    leaves the state as the first submission left it. *)
Theorem fetchCryptoData_idempotent (axios_get : Request -> Response) (st : State) :
  exec (fetchCryptoData axios_get) (exec (fetchCryptoData axios_get) st)
  = exec (fetchCryptoData axios_get) st.
Proof.
  destruct (fetchCryptoData_cases axios_get st)
    as [[_ E]|[(sd & ed & data & Hs & He & Hn & Hr & E)|(sd & ed & Hs & He & Hn & Hr & E)]].
  - rewrite E. exact E.
  - rewrite E.
    destruct (fetchCryptoData_cases axios_get
                {| startDate := startDate st; endDate := endDate st;
                   cryptoName := cryptoName st; graphData := Some data;
                   allCoins := allCoins st; suggestions := [];
                   error := None; gridLineCount := gridLineCount st |})
      as [[_ E']|[(sd' & ed' & data' & Hs' & He' & Hn' & Hr' & E')
             |(sd' & ed' & Hs' & He' & Hn' & Hr' & E')]];
      cbn [startDate endDate cryptoName allCoins gridLineCount] in *.
    + exact E'.
    + rewrite E'. rewrite Hs in Hs'. rewrite He in He'.
      injection Hs' as <-. injection He' as <-. rewrite Hr in Hr'.
      injection Hr' as <-. reflexivity.
    + rewrite Hs in Hs'. rewrite He in He'.
      injection Hs' as <-. injection He' as <-. rewrite Hr in Hr'. discriminate.
  - rewrite E.
    destruct (fetchCryptoData_cases axios_get
                {| startDate := startDate st; endDate := endDate st;
                   cryptoName := cryptoName st; graphData := None;
                   allCoins := allCoins st;
                   suggestions := getSuggestions (cryptoName st) (allCoins st)
                                    DEFAULT_MAX;
                   error := Some FETCH_ERROR;
                   gridLineCount := gridLineCount st |})
      as [[_ E']|[(sd' & ed' & data' & Hs' & He' & Hn' & Hr' & E')
             |(sd' & ed' & Hs' & He' & Hn' & Hr' & E')]];
      cbn [startDate endDate cryptoName allCoins gridLineCount] in *.
    + exact E'.
    + rewrite Hs in Hs'. rewrite He in He'.
      injection Hs' as <-. injection He' as <-. rewrite Hr in Hr'. discriminate.
    + rewrite E'. reflexivity.
Qed.

(** X6.  For dates from the epoch to the last representable day, the
    bounds of the request are the whole Unix seconds of the two instants:
    the binary64 division by 1000 never carries the quotient to the next
    integer. *)
Theorem range_request_whole_seconds (cname : string) (s e : Z) :
  (0 <= s <= MAX_TIME)%Z -> (0 <= e <= MAX_TIME)%Z ->
  let r := range_request cname {| getTime := Number_of_Z s |}
                               {| getTime := Number_of_Z e |} in
  from r = Number_of_Z (s / 1000) /\ to r = Number_of_Z (e / 1000).
Proof.
  intros Hs He r. unfold r, range_request. cbn [from to getTime].
  split; apply whole_seconds; assumption.
Qed.

Lemma range_request_whole_seconds_witness :
  ((0 <= 1700000000999 <= MAX_TIME)%Z /\ (0 <= 1700086400000 <= MAX_TIME)%Z)
  /\ from (range_request "bitcoin" {| getTime := Number_of_Z 1700000000999 |}
                                   {| getTime := Number_of_Z 1700086400000 |})
     = Number_of_Z 1700000000.
Proof.
  assert (H1 : (0 <= 1700000000999 <= MAX_TIME)%Z) by (unfold MAX_TIME; lia).
  assert (H2 : (0 <= 1700086400000 <= MAX_TIME)%Z) by (unfold MAX_TIME; lia).
  split; [split; assumption|].
  exact (proj1 (range_request_whole_seconds "bitcoin" _ _ H1 H2)).
Defined.

(** X7.  After the directory request has settled, a failed fetch shows the
    fixed message, no chart, and the suggestions drawn from what the
    directory request delivered: none at all when it failed. *)
Theorem failed_fetch_after_directory_load
        (axios_get : Request -> Response) (settled : option (list CoinInfo))
        (st : State) (sd ed : Date) :
  startDate st = Some sd -> endDate st = Some ed -> cryptoName st <> "" ->
  axios_get (range_request (cryptoName st) sd ed) = Rejected ->
  let st' := exec (loadCoinList settled ;; fetchCryptoData axios_get) st in
  error st' = Some FETCH_ERROR /\ graphData st' = None
  /\ suggestions st'
     = match settled with
       | Some data => getSuggestions (cryptoName st) data DEFAULT_MAX
       | None => []
       end.
Proof.
  intros Hs He Hn Hr st'. unfold st', exec, bind, loadCoinList.
  set (l := match settled with Some data => data | None => [] end).
  assert (El : match settled with
               | Some data => setAllCoins data
               | None => setAllCoins []
               end = setAllCoins l) by (destruct settled; reflexivity).
  rewrite El. unfold setAllCoins. cbn [fst snd].
  set (st1 := {| startDate := startDate st; endDate := endDate st;
                 cryptoName := cryptoName st; graphData := graphData st;
                 allCoins := l; suggestions := suggestions st;
                 error := error st; gridLineCount := gridLineCount st |}).
  destruct (fetchCryptoData_cases axios_get st1)
    as [[Hi _]|[(sd' & ed' & data' & Hs' & He' & Hn' & Hr' & E)
               |(sd' & ed' & Hs' & He' & Hn' & Hr' & E)]];
    unfold exec, st1 in *; cbn [startDate endDate cryptoName allCoins] in *.
  - exfalso. unfold inputs_present in Hi. cbn [startDate endDate cryptoName] in Hi.
    rewrite Hs, He in Hi.
    destruct (String.eqb_spec (cryptoName st) ""); [contradiction|discriminate].
  - rewrite Hs in Hs'. rewrite He in He'. injection Hs' as <-. injection He' as <-.
    rewrite Hr in Hr'. discriminate.
  - rewrite E. cbn [error graphData suggestions]. repeat split.
    unfold l. destruct settled as [data|]; [reflexivity|].
    unfold getSuggestions. destruct (String.eqb (cryptoName st) ""); reflexivity.
Qed.

Lemma failed_fetch_after_directory_load_witness :
  let d := {| getTime := Number_of_Z 0 |} in
  let st := {| startDate := Some d; endDate := Some d; cryptoName := "bitcon";
               graphData := None; allCoins := [bitcoin]; suggestions := [];
               error := None; gridLineCount := 6 |} in
  (startDate st = Some d /\ endDate st = Some d /\ cryptoName st <> ""
   /\ (fun _ : Request => Rejected) (range_request (cryptoName st) d d) = Rejected)
  /\ suggestions (exec (loadCoinList None ;; fetchCryptoData (fun _ => Rejected)) st)
     = [].
Proof.
  intros d st.
  assert (H1 : startDate st = Some d) by reflexivity.
  assert (H2 : endDate st = Some d) by reflexivity.
  assert (H3 : cryptoName st <> "") by discriminate.
  assert (H4 : (fun _ : Request => Rejected) (range_request (cryptoName st) d d)
               = Rejected) by reflexivity.
  split; [repeat split; assumption|].
  exact (proj2 (proj2 (failed_fetch_after_directory_load
                         (fun _ => Rejected) None st d d H1 H2 H3 H4))).
Defined.

(** ** Downsampling *)

Open Scope Z_scope.

Lemma Zrange_empty (lo hi : Z) : hi <= lo -> Zrange lo hi = [].
Proof.
  intros H. unfold Zrange. replace (Z.to_nat (hi - lo)) with 0%nat by lia. reflexivity.
Qed.

Lemma downsampleData_length_long {A : Type} (data : list A) (t : Z) :
  t < data_length data ->
  List.length (downsampleData data t) = (2 + Z.to_nat (t - 2))%nat.
Proof.
  intros H. rewrite (downsampleData_long data t H).
  cbn [List.length]. rewrite length_app, length_map, Zrange_length.
  cbn [List.length]. lia.
Qed.

(** X8.  The chart never receives more points than the budget, and never
    fewer than the series has when it fits. *)
Theorem downsample_size {A : Type} (data : list A) (targetPoints : Z) :
  2 <= targetPoints ->
  List.length (downsampleData data targetPoints)
  = Z.to_nat (Z.min (data_length data) targetPoints).
Proof.
  intros Ht. destruct (Z.le_gt_cases (data_length data) targetPoints) as [Hle|Hgt].
  - rewrite (downsampleData_short data targetPoints Hle), length_map.
    rewrite Z.min_l by exact Hle. unfold data_length. lia.
  - rewrite downsampleData_length_long by lia. rewrite Z.min_r by lia. lia.
Qed.

Lemma downsample_size_witness :
  2 <= DEFAULT_TARGET_POINTS
  /\ List.length (downsampleData (repeat (Number_of_Z 0, Number_of_Z 1) 200)
                                 DEFAULT_TARGET_POINTS) = 75%nat.
Proof.
  assert (H : 2 <= DEFAULT_TARGET_POINTS) by (unfold DEFAULT_TARGET_POINTS; lia).
  split; [exact H|].
  rewrite (downsample_size _ DEFAULT_TARGET_POINTS H). reflexivity.
Defined.

(** X9.  With a budget of two or less a longer series is cut down to its
    two end points; a one-point series under a budget of zero or less comes
    back as two copies of the point. *)
Theorem downsample_small_budget {A : Type} (d0 : A) (rest : list A)
        (targetPoints : Z) :
  let data := d0 :: rest in
  targetPoints <= 2 -> targetPoints < data_length data ->
  downsampleData data targetPoints = [Elem d0; Elem (last data d0)].
Proof.
  intros data Ht Hn. rewrite (downsampleData_long data targetPoints Hn).
  rewrite Zrange_empty by lia. unfold data.
  rewrite array_get_first, array_get_last. reflexivity.
Qed.

Lemma downsample_small_budget_witness :
  (0 <= 2 /\ 0 < data_length [7%nat])
  /\ downsampleData [7%nat] 0 = [Elem 7%nat; Elem 7%nat].
Proof.
  assert (H1 : 0 <= 2) by lia.
  assert (H2 : 0 < data_length [7%nat]) by reflexivity.
  split; [split; assumption|].
  exact (downsample_small_budget 7%nat [] 0 H1 H2).
Defined.

(** X10.  Downsampling never yields [undefined] and never invents a point. *)
Theorem downsample_members {A : Type} (data : list A) (targetPoints : Z) :
  0 <= targetPoints -> data_length data <= MAX_ARRAY_LENGTH ->
  Forall (fun o => exists a, o = Elem a /\ In a data)
         (downsampleData data targetPoints).
Proof.
  intros Ht Hn.
  destruct (Z.le_gt_cases (data_length data) targetPoints) as [Hle|Hgt].
  - rewrite (downsampleData_short data targetPoints Hle).
    apply Forall_forall. intros o Ho. apply in_map_iff in Ho.
    destruct Ho as (a & E & Ha). exists a. split; [symmetry; exact E|exact Ha].
  - assert (Hread : forall j, 0 <= j < data_length data ->
                      exists a, array_get data j = Elem a /\ In a data).
    { intros j Hj. destruct (array_get_Elem data j Hj) as (a & Ea & Eg).
      exists a. split; [exact Eg|]. eapply nth_error_In. exact Ea. }
    destruct (Z.le_gt_cases targetPoints 2) as [H2|H2].
    + rewrite (downsampleData_long data targetPoints) by lia.
      rewrite Zrange_empty by lia. cbn [map app].
      repeat constructor; apply Hread; lia.
    + rewrite (downsampleData_indices data targetPoints) by lia.
      pose proof (sample_indices_range (data_length data) targetPoints
                    ltac:(lia) ltac:(lia) Hn) as Hr.
      apply Forall_forall. intros o Ho. apply in_map_iff in Ho.
      destruct Ho as (j & E & Hj). rewrite Forall_forall in Hr.
      subst o. apply Hread. apply Hr. exact Hj.
Qed.

Lemma downsample_members_witness :
  (0 <= DEFAULT_TARGET_POINTS /\ data_length (seq 0 100) <= MAX_ARRAY_LENGTH)
  /\ Forall (fun o => exists a, o = Elem a /\ In a (seq 0 100))
            (downsampleData (seq 0 100) DEFAULT_TARGET_POINTS).
Proof.
  assert (H1 : 0 <= DEFAULT_TARGET_POINTS) by (unfold DEFAULT_TARGET_POINTS; lia).
  assert (H2 : data_length (seq 0 100) <= MAX_ARRAY_LENGTH)
    by (vm_compute; discriminate).
  split; [split; assumption|].
  exact (downsample_members (seq 0 100) DEFAULT_TARGET_POINTS H1 H2).
Defined.

(** X11.  Downsampling an already downsampled series changes nothing. *)
Theorem downsample_idempotent {A : Type} (data : list A) (targetPoints : Z) :
  downsampleData (downsampleData data targetPoints) targetPoints
  = map Elem (downsampleData data targetPoints).
Proof.
  destruct (Z.le_gt_cases 2 targetPoints) as [H2|H2].
  - apply downsampleData_short. unfold data_length.
    destruct (Z.le_gt_cases (data_length data) targetPoints) as [Hle|Hgt].
    + rewrite (downsampleData_short data targetPoints Hle), length_map. exact Hle.
    + rewrite downsampleData_length_long by lia. lia.
  - destruct (Z.le_gt_cases (data_length data) targetPoints) as [Hle|Hgt].
    + apply downsampleData_short. unfold data_length.
      rewrite (downsampleData_short data targetPoints Hle), length_map.
      exact Hle.
    + rewrite (downsampleData_long data targetPoints) by lia.
      rewrite Zrange_empty by lia. cbn [map app].
      rewrite downsampleData_long by (unfold data_length; cbn [List.length]; lia).
      rewrite Zrange_empty by lia. reflexivity.
Qed.

Open Scope Q_scope.

(** X12.  For budgets up to [2^19], the index read for [i] is the exact
    index [floor(i * n / t)] or the one before it: binary64 rounding can lose
    one position, never gain one. *)
Theorem sample_index_accuracy (n t i : Z) :
  (2 <= t)%Z -> (t < n)%Z -> (n <= MAX_ARRAY_LENGTH)%Z -> (t <= 2 ^ 19)%Z ->
  (1 <= i <= t - 2)%Z ->
  (i * n / t - 1 <= sample_index n t i <= i * n / t)%Z.
Proof.
  intros Ht Htn Hn Ht19 Hi.
  destruct (T_pos n t Ht Htn Hn) as (T2 & TN & N32).
  destruct (ratio_spec n t Ht Htn Hn) as (Er & R1 & R2).
  destruct (step_bounds n t Ht Htn Hn) as [S1 S2].
  destruct (product_bounds n t Ht Htn Hn i Hi) as (P1 & _ & P3).
  unfold sample_index.
  set (N := inject_Z n) in *. set (T := inject_Z t) in *.
  set (r := N / T) in *. set (s := fl r) in *.
  set (I := inject_Z i) in *. set (x := I * s) in *.
  assert (S3 : r * (1 - pow2 (-53)) <= s) by (apply fl_rel_err; lra).
  destruct (fl_rel_err x P1) as [F1 F2].
  rewrite eps53 in *.
  assert (I1 : 1 <= I) by (unfold I; change 1 with (inject_Z 1); rewrite <- Zle_Qle; lia).
  assert (I2 : I <= T - 2).
  { unfold I, T. replace (inject_Z t - 2) with (inject_Z (t - 2)).
    - rewrite <- Zle_Qle. lia.
    - replace (t - 2)%Z with (t + -2)%Z by lia. rewrite inject_Z_plus. reflexivity. }
  set (E := I * r).
  assert (X1 : E * (1 - (1 # 9007199254740992)) <= x).
  { unfold x, E. rewrite <- Qmult_assoc. rewrite !(Qmult_comm I).
    apply Qmult_le_compat_r; lra. }
  assert (X2 : x <= E * (1 + (1 # 9007199254740992))).
  { unfold x, E. rewrite <- Qmult_assoc. rewrite !(Qmult_comm I).
    apply Qmult_le_compat_r; lra. }
  assert (E0 : 1 <= E) by (unfold E; nra).
  assert (E32 : E <= N).
  { apply Qle_trans with ((T - 2) * r).
    - unfold E. apply Qmult_le_compat_r; lra.
    - assert (Eq : (T - 2) * r == N - 2 * r) by (rewrite <- Er; ring). rewrite Eq. lra. }
  (* the exact quotient *)
  set (k := (i * n / t)%Z).
  pose proof (Z.div_mod (i * n) t ltac:(lia)) as Hdm.
  pose proof (Z.mod_pos_bound (i * n) t ltac:(lia)) as Hm. fold k in Hdm.
  set (m := ((i * n) mod t)%Z) in *.
  set (K := inject_Z k). set (M := inject_Z m).
  assert (ET : E * T == T * K + M).
  { unfold E, K, M. rewrite <- Qmult_assoc, Er. unfold I, N, T.
    rewrite <- !inject_Z_mult, <- inject_Z_plus, <- Hdm. reflexivity. }
  assert (M0 : 0 <= M) by (unfold M; change 0 with (inject_Z 0); rewrite <- Zle_Qle; lia).
  assert (M1 : M <= T - 1).
  { unfold M, T. replace (inject_Z t - 1) with (inject_Z (t - 1)).
    - rewrite <- Zle_Qle. lia.
    - replace (t - 1)%Z with (t + -1)%Z by lia. rewrite inject_Z_plus. reflexivity. }
  assert (T19 : T <= 524288).
  { unfold T. change 524288 with (inject_Z (2 ^ 19)). rewrite <- Zle_Qle. exact Ht19. }
  assert (EK1 : K <= E) by nra.
  assert (EK2 : 524288 * E <= 524288 * K + 524287) by nra.
  split.
  - apply Qfloor_ge. replace (k - 1)%Z with (k + -1)%Z by lia.
    rewrite inject_Z_plus. fold K. change (inject_Z (-1)) with (-1). lra.
  - assert (Qfloor (fl x) < k + 1)%Z; [|lia].
    apply Qfloor_lt. rewrite inject_Z_plus. fold K. change (inject_Z 1) with 1. lra.
Qed.

Lemma sample_index_accuracy_witness :
  ((2 <= 75)%Z /\ (75 < 87)%Z /\ (87 <= MAX_ARRAY_LENGTH)%Z /\ (75 <= 2 ^ 19)%Z
   /\ (1 <= 25 <= 75 - 2)%Z)
  /\ (25 * 87 / 75 - 1 <= sample_index 87 75 25 <= 25 * 87 / 75)%Z.
Proof.
  assert (H1 : (2 <= 75)%Z) by lia.
  assert (H2 : (75 < 87)%Z) by lia.
  assert (H3 : (87 <= MAX_ARRAY_LENGTH)%Z) by (vm_compute; discriminate).
  assert (H4 : (75 <= 2 ^ 19)%Z) by (vm_compute; discriminate).
  assert (H5 : (1 <= 25 <= 75 - 2)%Z) by lia.
  split; [repeat split; try assumption; lia|].
  exact (sample_index_accuracy 87 75 25 H1 H2 H3 H4 H5).
Defined.

(** ** Number helpers and the smoothed path *)

Open Scope Q_scope.
Open Scope string_scope.

Lemma ilog2_Qabs (x : Q) : ilog2 (Qabs x) = ilog2 x.
Proof.
  destruct x as [n d]. unfold ilog2, Qabs. cbn [Qnum Qden].
  rewrite Z.abs_idemp. reflexivity.
Qed.

Lemma Qabs_pos_nonzero (x : Q) : ~ x == 0 -> (0 < Qabs x)%Q.
Proof.
  intros H. destruct (Qlt_le_dec 0 (Qabs x)) as [|Hle]; [assumption|exfalso].
  apply H. pose proof (Qabs_nonneg x) as H0.
  assert (E : Qabs x == 0) by lra.
  apply Qabs_Qle_condition with (y := 0%Q) in Hle. lra.
Qed.

Lemma ilog2_ext (x y : Q) : ~ x == 0 -> x == y -> ilog2 x = ilog2 y.
Proof.
  intros Hx E. rewrite <- (ilog2_Qabs x), <- (ilog2_Qabs y).
  apply ilog2_comp; [apply Qabs_pos_nonzero; exact Hx|].
  rewrite E. reflexivity.
Qed.

Lemma fl_ext (x y : Q) : x == y -> fl x = fl y.
Proof.
  intros E. unfold fl.
  destruct (Qeq_bool x 0) eqn:Ex; destruct (Qeq_bool y 0) eqn:Ey.
  - reflexivity.
  - apply Qeq_bool_iff in Ex. apply Qeq_bool_neq in Ey. exfalso. apply Ey.
    rewrite <- E. exact Ex.
  - apply Qeq_bool_iff in Ey. apply Qeq_bool_neq in Ex. exfalso. apply Ex.
    rewrite E. exact Ey.
  - apply Qeq_bool_neq in Ex.
    assert (Ef : fexp x = fexp y) by (unfold fexp; rewrite (ilog2_ext x y Ex E); reflexivity).
    rewrite <- Ef. apply Qred_complete.
    assert (Es : x / pow2 (fexp x) == y / pow2 (fexp x))
      by (unfold Qdiv; apply Qmult_comp; [exact E|reflexivity]).
    rewrite (rne_comp _ _ Es). reflexivity.
Qed.

Lemma Qle_bool_ext (a x y : Q) : x == y -> Qle_bool a x = Qle_bool a y.
Proof.
  intros E. destruct (Qle_bool a x) eqn:Hx; destruct (Qle_bool a y) eqn:Hy;
    try reflexivity.
  - apply Qle_bool_iff in Hx. rewrite E in Hx. apply Qle_bool_iff in Hx. congruence.
  - apply Qle_bool_iff in Hy. rewrite <- E in Hy. apply Qle_bool_iff in Hy. congruence.
Qed.

Lemma Number_round_ext (x y : Q) : x == y -> Number_round x = Number_round y.
Proof.
  intros E. unfold Number_round, Qneg.
  rewrite (fl_ext x y E), (Qle_bool_ext 0 x y E). reflexivity.
Qed.

Lemma Number_round_zero (z : Q) : z == 0 -> Number_round z = Fin 0.
Proof. intros E. rewrite (Number_round_ext z 0 E). vm_compute. reflexivity. Qed.

Lemma num_sub_self (q : Q) : num_sub (Fin q) (Fin q) = Fin 0.
Proof. unfold num_sub, num_neg, num_add. apply Number_round_zero. ring. Qed.

Lemma num_mul_zero_tension : num_mul (Fin 0) tension = Fin 0.
Proof. vm_compute. reflexivity. Qed.

Lemma num_add_zero (q : Q) : binary64 q -> num_add (Fin q) (Fin 0) = Fin q.
Proof.
  intros H. unfold num_add. rewrite (Number_round_ext (q + 0) q) by ring. exact H.
Qed.

Lemma num_sub_zero (q : Q) : binary64 q -> num_sub (Fin q) (Fin 0) = Fin q.
Proof.
  intros H. unfold num_sub, num_neg, num_add.
  rewrite (Number_round_ext (q + - 0) q) by ring. exact H.
Qed.

(** X13.  On a flat stretch the curve stays flat: when the four points
    that shape a segment share a height, both control points have that
    height. *)
Theorem flat_stretch_stays_flat (p0 p1 p2 p3 : Point) (h : Q) :
  binary64 h ->
  y p0 = Fin h -> y p1 = Fin h -> y p2 = Fin h -> y p3 = Fin h ->
  y (cp1 (segment_of p0 p1 p2 p3)) = Fin h
  /\ y (cp2 (segment_of p0 p1 p2 p3)) = Fin h.
Proof.
  intros Hb H0 H1 H2 H3. unfold segment_of. cbn [cp1 cp2 y].
  rewrite H0, H1, H2, H3, num_sub_self, num_mul_zero_tension.
  split; [apply num_add_zero|apply num_sub_zero]; exact Hb.
Qed.

Lemma flat_stretch_stays_flat_witness :
  let p := fun k => {| x := Number_of_Z k; y := Number_of_Z 200 |} in
  binary64 200
  /\ y (cp1 (segment_of (p 40%Z) (p 44%Z) (p 48%Z) (p 52%Z))) = Fin 200.
Proof.
  intros p.
  assert (H : binary64 200) by (vm_compute; reflexivity).
  split; [exact H|].
  exact (proj1 (flat_stretch_stays_flat (p 40%Z) (p 44%Z) (p 48%Z) (p 52%Z) 200 H
                  eq_refl eq_refl eq_refl eq_refl)).
Defined.

(** ** The chart: [renderGraph] *)

Lemma chart_xs_checked : forallb chart_xs_ok (seq 2 74) = true.
Proof. vm_compute. reflexivity. Qed.

Lemma defined_all_map_Elem {A : Type} (l : list A) : defined_all (map Elem l) = Some l.
Proof. induction l as [|a l IH]; simpl; [reflexivity|]. rewrite IH. reflexivity. Qed.

Lemma array_get_nth {A : Type} (data : list A) (d : A) (j : Z) :
  (0 <= j < data_length data)%Z ->
  array_get data j = Elem (nth (Z.to_nat j) data d) /\ In (nth (Z.to_nat j) data d) data.
Proof.
  intros Hj. destruct (array_get_Elem data j Hj) as (a & Ea & Eg).
  rewrite (nth_error_nth data (Z.to_nat j) d Ea). split; [exact Eg|].
  eapply nth_error_In. exact Ea.
Qed.

(** The sampled series of a non-empty series under the default budget. *)
Lemma sampled_default {A : Type} (p0 : A) (rest : list A) :
  let data := p0 :: rest in
  (data_length data <= MAX_ARRAY_LENGTH)%Z ->
  exists sampled : list A,
    downsampleData data DEFAULT_TARGET_POINTS = map Elem sampled
    /\ List.length sampled = Z.to_nat (Z.min (data_length data) DEFAULT_TARGET_POINTS)
    /\ Forall (fun p => In p data) sampled
    /\ last sampled p0 = last data p0.
Proof.
  intros data Hn.
  destruct (Z.le_gt_cases (data_length data) DEFAULT_TARGET_POINTS) as [Hle|Hgt].
  - exists data. split; [apply downsampleData_short; exact Hle|]. split; [|split].
    + rewrite Z.min_l by exact Hle. unfold data_length. lia.
    + apply Forall_forall. auto.
    + reflexivity.
  - assert (Ht : (2 <= DEFAULT_TARGET_POINTS)%Z) by (unfold DEFAULT_TARGET_POINTS; lia).
    assert (Hlt : (DEFAULT_TARGET_POINTS < data_length data)%Z) by lia.
    pose proof (downsampleData_indices data _ Ht Hlt Hn) as E.
    pose proof (sample_indices_range _ _ Ht Hlt Hn) as Hr.
    pose proof (sample_indices_length (data_length data) _ Ht) as Hl.
    set (idxs := sample_indices (data_length data) DEFAULT_TARGET_POINTS) in *.
    exists (map (fun j => nth (Z.to_nat j) data p0) idxs).
    split; [|split; [|split]].
    + rewrite E, map_map. apply map_ext_in. intros j Hj.
      rewrite Forall_forall in Hr. apply (array_get_nth data p0 j). apply Hr. exact Hj.
    + rewrite length_map, Hl. rewrite Z.min_r by lia. reflexivity.
    + apply Forall_forall. intros p Hp. apply in_map_iff in Hp.
      destruct Hp as (j & <- & Hj). rewrite Forall_forall in Hr.
      apply (array_get_nth data p0 j). apply Hr. exact Hj.
    + unfold idxs, sample_indices. rewrite app_comm_cons, map_app. cbn [map].
      rewrite last_last, (last_nth data p0). f_equal.
      unfold data_length. lia.
Qed.

Lemma createSmoothPath_total (show_finite : Q -> string) (pts : list Point) :
  exists s, createSmoothPath show_finite pts = Some s
            /\ ((List.length pts < 2)%nat -> s = "").
Proof.
  destruct pts as [|a [|b l]].
  - exists "". split; [reflexivity|reflexivity].
  - exists "". split; [reflexivity|reflexivity].
  - pose proof (createSmoothPath_segments show_finite a b l) as E. cbv zeta in E.
    eexists. split; [exact E|]. cbn [List.length]. lia.
Qed.

Lemma map_indexed_length {A B : Type} (f : A -> Z -> B) (i : Z) (l : list A) :
  List.length (map_indexed f i l) = List.length l.
Proof.
  revert i. induction l as [|a l IH]; intros i; simpl; [reflexivity|].
  rewrite IH. reflexivity.
Qed.

Lemma map_indexed_split {A : Type} (fx : Z -> number) (fy : A -> number)
      (i : Z) (l : list A) :
  let pts := map_indexed (fun a k => {| x := fx k; y := fy a |}) i l in
  map x pts = map (fun k => fx (i + Z.of_nat k)%Z) (seq 0 (List.length l))
  /\ map y pts = map fy l.
Proof.
  revert i. induction l as [|a l IH]; intros i; [split; reflexivity|].
  cbn [map_indexed map List.length seq]. destruct (IH (i + 1)%Z) as [Ex Ey].
  cbv zeta in Ex, Ey. split.
  - rewrite Z.add_0_r. f_equal. rewrite Ex, <- seq_shift, map_map.
    apply map_ext. intros k. f_equal. lia.
  - cbn [y]. rewrite Ey. reflexivity.
Qed.

(** What [renderGraph] returns on a non-empty series of admissible length. *)
Lemma renderGraph_chart (show_finite : Q -> string) (st : State)
      (g : CryptoData) (p0 : number * number) (rest : list (number * number)) :
  graphData st = Some g -> prices g = p0 :: rest ->
  (data_length (prices g) <= MAX_ARRAY_LENGTH)%Z ->
  exists (sampled : list (number * number)) (path : string),
    let lo := Math_min (map snd sampled) in
    let hi := Math_max (map snd sampled) in
    let scale :=
      num_div (num_sub (num_sub height (Padding.top padding)) (Padding.bottom padding))
              (num_sub hi lo) in
    let pts :=
      map_indexed (fun price i =>
                     {| x := point_x (x_scale (List.length sampled)) i;
                        y := point_y lo scale (snd price) |}) 0%Z sampled in
    List.length sampled
    = Z.to_nat (Z.min (data_length (prices g)) DEFAULT_TARGET_POINTS)
    /\ Forall (fun p => In p (prices g)) sampled
    /\ last sampled p0 = last (prices g) p0
    /\ createSmoothPath show_finite pts = Some path
    /\ exists c,
         renderGraph show_finite st = RenderChart c
         /\ sampledPrices c = sampled /\ points c = pts
         /\ yMin c = lo /\ yScale c = scale
         /\ smoothPath c = path
         /\ finalLabel c = formatCurrency show_finite (snd (last (prices g) p0))
         /\ percentChange c
            = if String.eqb (cryptoName st) "" then None
              else if (1 <? List.length (prices g))%nat
                   then Some (percent_text show_finite (snd p0)
                                (snd (last (prices g) p0)))
                   else None.
Proof.
  intros Hg Hp Hn. rewrite Hp in Hn.
  destruct (sampled_default p0 rest Hn) as (sampled & Es & Hl & Hin & Hlast).
  exists sampled.
  set (pts := map_indexed (fun price i =>
                 {| x := point_x (x_scale (List.length sampled)) i;
                    y := point_y (Math_min (map snd sampled))
                           (num_div (num_sub (num_sub height (Padding.top padding))
                                             (Padding.bottom padding))
                                    (num_sub (Math_max (map snd sampled))
                                             (Math_min (map snd sampled))))
                           (snd price) |}) 0%Z sampled).
  destruct (createSmoothPath_total show_finite pts) as (path & Epath & _).
  exists path. cbv zeta. fold pts. rewrite Hp.
  split; [exact Hl|]. split; [exact Hin|]. split; [exact Hlast|].
  split; [exact Epath|].
  unfold renderGraph. rewrite Hg, Hp, Es, defined_all_map_Elem. fold pts.
  rewrite Epath. eexists. split; [reflexivity|]. cbn [sampledPrices points yMin yScale smoothPath finalLabel percentChange].
  rewrite Hlast. repeat split; reflexivity.
Qed.

Lemma finite_values_spec (l : list number) (qs : list Q) :
  finite_values l = Some qs -> l = map Fin qs.
Proof.
  revert qs. induction l as [|v l IH]; intros qs H.
  - injection H as <-. reflexivity.
  - destruct v as [| |q]; try discriminate. cbn [finite_values] in H.
    destruct (finite_values l) as [r|]; [|discriminate].
    injection H as <-. cbn [map]. rewrite (IH r eq_refl). reflexivity.
Qed.

Lemma increasing_sorted (l : list Q) : increasing l = true -> StronglySorted Qlt l.
Proof.
  intros H. apply Sorted_StronglySorted; [intros a b c; apply Qlt_trans|].
  induction l as [|a l IH]; [constructor|].
  destruct l as [|b l]; [repeat constructor|].
  cbn [increasing] in H. apply andb_true_iff in H. destruct H as [Hab Hl].
  constructor; [apply IH; exact Hl|]. constructor.
  apply Qnot_le_lt. intros C. apply Qle_bool_iff in C. rewrite C in Hab. discriminate.
Qed.

Lemma Q_same_eq (a b : Q) : Q_same a b = true -> a = b.
Proof.
  unfold Q_same. intros H. apply andb_true_iff in H. destruct H as [H1 H2].
  apply Z.eqb_eq in H1. apply Pos.eqb_eq in H2.
  destruct a, b. cbn in *. congruence.
Qed.

Lemma plot_constants :
  num_sub (num_sub height (Padding.top padding)) (Padding.bottom padding) = Fin 350
  /\ num_sub height (Padding.bottom padding) = Fin 410
  /\ Padding.left padding = Fin 40.
Proof. repeat split; vm_compute; reflexivity. Qed.

Lemma Math_min_const (h : Q) (l : list number) :
  l <> [] -> Forall (fun v => v = Fin h) l -> Math_min l = Fin h.
Proof.
  assert (G : forall l, Forall (fun v => v = Fin h) l ->
                        fold_left Math_min2 l (Fin h) = Fin h).
  { induction 1 as [|v l' Hv Hl' IH]; [reflexivity|]. subst v. cbn [fold_left].
    assert (E : Math_min2 (Fin h) (Fin h) = Fin h).
    { unfold Math_min2. destruct (num_ge (Fin h) (Fin h)); reflexivity. }
    rewrite E. exact IH. }
  intros Hne Hl. destruct l as [|v l]; [contradiction|].
  inversion Hl as [|? ? Hv Hl']; subst. unfold Math_min. cbn [fold_left].
  change (Math_min2 (Infinity false) (Fin h)) with (Fin h). apply G. exact Hl'.
Qed.

Lemma Math_max_const (h : Q) (l : list number) :
  l <> [] -> Forall (fun v => v = Fin h) l -> Math_max l = Fin h.
Proof.
  assert (G : forall l, Forall (fun v => v = Fin h) l ->
                        fold_left Math_max2 l (Fin h) = Fin h).
  { induction 1 as [|v l' Hv Hl' IH]; [reflexivity|]. subst v. cbn [fold_left].
    assert (E : Math_max2 (Fin h) (Fin h) = Fin h).
    { unfold Math_max2. destruct (num_ge (Fin h) (Fin h)); reflexivity. }
    rewrite E. exact IH. }
  intros Hne Hl. destruct l as [|v l]; [contradiction|].
  inversion Hl as [|? ? Hv Hl']; subst. unfold Math_max. cbn [fold_left].
  change (Math_max2 (Infinity true) (Fin h)) with (Fin h). apply G. exact Hl'.
Qed.

Lemma flat_point_y (h : Q) :
  point_y (Fin h)
          (num_div (num_sub (num_sub height (Padding.top padding)) (Padding.bottom padding))
                   (num_sub (Fin h) (Fin h)))
          (Fin h) = NaN.
Proof.
  unfold point_y. destruct plot_constants as (E350 & E410 & _).
  rewrite E350, E410, num_sub_self. reflexivity.
Qed.

Lemma baseline_point_y (a s : Q) : point_y (Fin a) (Fin s) (Fin a) = Fin 410.
Proof.
  unfold point_y. destruct plot_constants as (_ & E410 & _).
  rewrite E410, num_sub_self. unfold num_mul.
  rewrite (Number_round_zero (0 * s)) by ring. vm_compute. reflexivity.
Qed.

Lemma map_indexed_nth_error {A B : Type} (f : A -> Z -> B) (i : Z) (l : list A)
      (k : nat) :
  nth_error (map_indexed f i l) k
  = option_map (fun a => f a (i + Z.of_nat k)%Z) (nth_error l k).
Proof.
  revert i k. induction l as [|a l IH]; intros i [|k]; cbn [map_indexed nth_error option_map];
    try reflexivity.
  - rewrite Z.add_0_r. reflexivity.
  - rewrite IH. destruct (nth_error l k); cbn [option_map]; [|reflexivity].
    do 2 f_equal. lia.
Qed.

(** X14.  A chart is drawn exactly when there is a non-empty series: the
    function then never raises, and it plots [min(length, 75)] points, each
    one a raw sample. *)
Theorem renderGraph_draws_when_data (show_finite : Q -> string) (st : State) :
  (forall g, graphData st = Some g ->
             (data_length (prices g) <= MAX_ARRAY_LENGTH)%Z) ->
  match graphData st with
  | None => renderGraph show_finite st = RenderNull
  | Some g =>
      match prices g with
      | [] => renderGraph show_finite st = RenderNull
      | _ :: _ =>
          exists c,
            renderGraph show_finite st = RenderChart c
            /\ List.length (points c)
               = Z.to_nat (Z.min (data_length (prices g)) DEFAULT_TARGET_POINTS)
            /\ List.length (sampledPrices c) = List.length (points c)
            /\ Forall (fun p => In p (prices g)) (sampledPrices c)
      end
  end.
Proof.
  intros Hn. destruct (graphData st) as [g|] eqn:Hg.
  2:{ unfold renderGraph. rewrite Hg. reflexivity. }
  destruct (prices g) as [|p0 rest] eqn:Hp.
  { unfold renderGraph. rewrite Hg, Hp. reflexivity. }
  destruct (renderGraph_chart show_finite st g p0 rest Hg Hp (Hn g eq_refl))
    as (sampled & path & Hl & Hin & _ & _ & c & Ec & Es & Ept & _).
  cbv zeta in Ept. exists c. rewrite Es, Ept, map_indexed_length, Hp in *.
  split; [exact Ec|]. split; [exact Hl|]. split; [reflexivity|exact Hin].
Qed.

Lemma renderGraph_draws_when_data_witness :
  let st := {| startDate := None; endDate := None; cryptoName := "bitcoin";
               graphData := Some {| prices := [(Number_of_Z 0, Number_of_Z 5);
                                               (Number_of_Z 1, Number_of_Z 7)] |};
               allCoins := []; suggestions := []; error := None;
               gridLineCount := 6 |} in
  (forall g, graphData st = Some g ->
             (data_length (prices g) <= MAX_ARRAY_LENGTH)%Z)
  /\ exists c, renderGraph (fun _ => "#") st = RenderChart c
               /\ List.length (points c) = 2%nat.
Proof.
  intros st.
  assert (H : forall g, graphData st = Some g ->
                        (data_length (prices g) <= MAX_ARRAY_LENGTH)%Z).
  { intros g Hg. injection Hg as <-. vm_compute. discriminate. }
  split; [exact H|].
  destruct (renderGraph_draws_when_data (fun _ => "#") st H) as (c & Ec & El & _).
  exists c. split; [exact Ec|exact El].
Defined.

(** X15.  With two points or more, the x-coordinates run from exactly 40 to
    exactly 320 and increase strictly from each point to the next. *)
Theorem renderGraph_x_coordinates (show_finite : Q -> string) (st : State)
        (g : CryptoData) :
  graphData st = Some g ->
  (2 <= data_length (prices g) <= MAX_ARRAY_LENGTH)%Z ->
  exists (c : Chart) (xs : list Q),
    renderGraph show_finite st = RenderChart c
    /\ map x (points c) = map Fin xs
    /\ StronglySorted Qlt xs
    /\ hd_error xs = Some 40%Q /\ last xs 0%Q = 320%Q.
Proof.
  intros Hg Hn. destruct (prices g) as [|p0 rest] eqn:Hp.
  { unfold data_length in Hn. cbn in Hn. lia. }
  destruct (renderGraph_chart show_finite st g p0 rest Hg Hp)
    as (sampled & path & Hl & _ & _ & _ & c & Ec & _ & Ept & _).
  { rewrite Hp. lia. }
  cbv zeta in Ept. rewrite Hp in Hl.
  set (m := List.length sampled) in *.
  assert (Hm : In m (seq 2 74)).
  { apply in_seq. rewrite Hl. unfold DEFAULT_TARGET_POINTS. lia. }
  pose proof chart_xs_checked as Hall. rewrite forallb_forall in Hall.
  specialize (Hall m Hm). unfold chart_xs_ok in Hall.
  destruct (finite_values (chart_xs m)) as [qs|] eqn:Ef; [|discriminate].
  destruct qs as [|q0 qs']; [discriminate|].
  apply andb_true_iff in Hall. destruct Hall as [Hall Hinc].
  apply andb_true_iff in Hall. destruct Hall as [H40 H320].
  exists c, (q0 :: qs'). split; [exact Ec|]. split; [|split; [|split]].
  - rewrite Ept.
    destruct (map_indexed_split (point_x (x_scale m))
                (fun price : number * number =>
                   point_y (Math_min (map snd sampled))
                     (num_div (num_sub (num_sub height (Padding.top padding)) (Padding.bottom padding))
                              (num_sub (Math_max (map snd sampled))
                                       (Math_min (map snd sampled))))
                     (snd price)) 0%Z sampled) as [Ex _].
    cbv zeta in Ex. fold m in Ex. rewrite Ex.
    rewrite <- (finite_values_spec _ _ Ef). reflexivity.
  - apply increasing_sorted. exact Hinc.
  - cbn [hd_error]. rewrite (Q_same_eq _ _ H40). reflexivity.
  - apply Q_same_eq. exact H320.
Qed.

Lemma renderGraph_x_coordinates_witness :
  let g := {| prices := [(Number_of_Z 0, Number_of_Z 5);
                         (Number_of_Z 1, Number_of_Z 7);
                         (Number_of_Z 2, Number_of_Z 6)] |} in
  let st := {| startDate := None; endDate := None; cryptoName := "bitcoin";
               graphData := Some g;
               allCoins := []; suggestions := []; error := None;
               gridLineCount := 6 |} in
  (graphData st = Some g /\ (2 <= data_length (prices g) <= MAX_ARRAY_LENGTH)%Z)
  /\ exists c xs, renderGraph (fun _ => "#") st = RenderChart c
                  /\ map x (points c) = map Fin xs /\ StronglySorted Qlt xs.
Proof.
  intros g st.
  assert (H1 : graphData st = Some g) by reflexivity.
  assert (H2 : (2 <= data_length (prices g) <= MAX_ARRAY_LENGTH)%Z)
    by (vm_compute; split; discriminate).
  split; [split; assumption|].
  destruct (renderGraph_x_coordinates (fun _ => "#") st g H1 H2)
    as (c & xs & Ec & Ex & Hs & _).
  exists c, xs. repeat split; assumption.
Defined.

(** X16.  A series whose prices are all the same number is drawn at no
    height: the vertical scale is infinite and every point has [y = NaN]. *)
Theorem renderGraph_flat_series (show_finite : Q -> string) (st : State)
        (g : CryptoData) (h : Q) :
  graphData st = Some g -> prices g <> [] ->
  (data_length (prices g) <= MAX_ARRAY_LENGTH)%Z ->
  Forall (fun p => snd p = Fin h) (prices g) ->
  exists c,
    renderGraph show_finite st = RenderChart c
    /\ yScale c = Infinity false
    /\ Forall (fun pt => y pt = NaN) (points c).
Proof.
  intros Hg Hne Hn Hflat. destruct (prices g) as [|p0 rest] eqn:Hp; [contradiction|].
  destruct (renderGraph_chart show_finite st g p0 rest Hg Hp)
    as (sampled & path & Hl & Hin & _ & _ & c & Ec & _ & Ept & _ & Esc & _).
  { rewrite Hp. exact Hn. }
  cbv zeta in Ept, Esc. rewrite Hp in Hl, Hin.
  assert (Hs : Forall (fun v => v = Fin h) (map snd sampled)).
  { apply Forall_forall. intros v Hv. apply in_map_iff in Hv.
    destruct Hv as (p & <- & Hpin). rewrite Forall_forall in Hin, Hflat.
    apply Hflat. apply Hin. exact Hpin. }
  assert (Hsne : map snd sampled <> []).
  { intros E. apply (f_equal (@List.length number)) in E.
    rewrite length_map, Hl in E. cbn [List.length] in E.
    unfold data_length, DEFAULT_TARGET_POINTS in E. cbn [List.length] in E. lia. }
  rewrite (Math_min_const h _ Hsne Hs), (Math_max_const h _ Hsne Hs) in Ept, Esc.
  exists c. split; [exact Ec|]. split.
  - rewrite Esc, num_sub_self. destruct plot_constants as (E350 & _). rewrite E350.
    reflexivity.
  - rewrite Ept.
    destruct (map_indexed_split (point_x (x_scale (List.length sampled)))
                (fun price : number * number =>
                   point_y (Fin h)
                     (num_div (num_sub (num_sub height (Padding.top padding)) (Padding.bottom padding))
                              (num_sub (Fin h) (Fin h)))
                     (snd price)) 0%Z sampled) as [_ Ey].
    cbv zeta in Ey. apply Forall_forall. intros pt Hpt.
    apply (in_map y) in Hpt. rewrite Ey in Hpt. apply in_map_iff in Hpt.
    destruct Hpt as (p & Epy & Hpin). rewrite <- Epy.
    rewrite Forall_forall in Hs. rewrite (Hs (snd p)) by (apply in_map; exact Hpin).
    apply flat_point_y.
Qed.

Lemma renderGraph_flat_series_witness :
  let g := {| prices := [(Number_of_Z 0, Fin 5); (Number_of_Z 1, Fin 5)] |} in
  let st := {| startDate := None; endDate := None; cryptoName := "bitcoin";
               graphData := Some g;
               allCoins := []; suggestions := []; error := None;
               gridLineCount := 6 |} in
  (graphData st = Some g /\ prices g <> []
   /\ (data_length (prices g) <= MAX_ARRAY_LENGTH)%Z
   /\ Forall (fun p => snd p = Fin 5) (prices g))
  /\ exists c, renderGraph (fun _ => "#") st = RenderChart c
               /\ yScale c = Infinity false.
Proof.
  intros g st.
  assert (H1 : graphData st = Some g) by reflexivity.
  assert (H2 : prices g <> []) by discriminate.
  assert (H3 : (data_length (prices g) <= MAX_ARRAY_LENGTH)%Z)
    by (vm_compute; discriminate).
  assert (H4 : Forall (fun p => snd p = Fin 5) (prices g))
    by (repeat constructor).
  split; [repeat split; assumption|].
  destruct (renderGraph_flat_series (fun _ => "#") st g 5 H1 H2 H3 H4)
    as (c & Ec & Es & _).
  exists c. split; assumption.
Defined.

Lemma single_point_y (v : number) :
  point_y (Math_min [v])
          (num_div (num_sub (num_sub height (Padding.top padding)) (Padding.bottom padding))
                   (num_sub (Math_max [v]) (Math_min [v])))
          v = NaN.
Proof.
  destruct v as [|[|]|q]; [vm_compute; reflexivity ..|].
  assert (Emin : Math_min [Fin q] = Fin q) by reflexivity.
  assert (Emax : Math_max [Fin q] = Fin q) by reflexivity.
  rewrite Emin, Emax. apply flat_point_y.
Qed.

(** X17.  A series of a single sample gives one point without coordinates
    ([NaN], [NaN]), an empty path and no percentage. *)
Theorem renderGraph_single_sample (show_finite : Q -> string) (st : State)
        (g : CryptoData) (p : number * number) :
  graphData st = Some g -> prices g = [p] ->
  exists c,
    renderGraph show_finite st = RenderChart c
    /\ points c = [{| x := NaN; y := NaN |}]
    /\ smoothPath c = ""
    /\ percentChange c = None.
Proof.
  intros Hg Hp.
  destruct (renderGraph_chart show_finite st g p [] Hg Hp)
    as (sampled & path & Hl & Hin & _ & Hpath & c & Ec & _ & Ept & _ & _ & Esp & _ & Epc).
  { rewrite Hp. vm_compute. discriminate. }
  cbv zeta in Ept, Hpath. rewrite Hp in Hl, Hin, Epc.
  assert (Es : sampled = [p]).
  { destruct sampled as [|a [|b l]]; try discriminate Hl.
    inversion Hin as [|? ? Ha _]. destruct Ha as [<-|[]]. reflexivity. }
  subst sampled. cbn [map_indexed map snd List.length] in Ept, Hpath.
  rewrite single_point_y in Ept, Hpath.
  assert (Ex : point_x (x_scale 1) 0 = NaN) by (vm_compute; reflexivity).
  rewrite Ex in Ept, Hpath.
  exists c. split; [exact Ec|]. split; [exact Ept|]. split.
  - rewrite Esp. cbn in Hpath. injection Hpath as <-. reflexivity.
  - rewrite Epc. cbn [List.length Nat.ltb Nat.leb].
    destruct (String.eqb (cryptoName st) ""); reflexivity.
Qed.

Lemma renderGraph_single_sample_witness :
  let g := {| prices := [(Number_of_Z 0, Fin 5)] |} in
  let st := {| startDate := None; endDate := None; cryptoName := "bitcoin";
               graphData := Some g;
               allCoins := []; suggestions := []; error := None;
               gridLineCount := 6 |} in
  (graphData st = Some g /\ prices g = [(Number_of_Z 0, Fin 5)])
  /\ exists c, renderGraph (fun _ => "#") st = RenderChart c
               /\ points c = [{| x := NaN; y := NaN |}].
Proof.
  intros g st.
  assert (H1 : graphData st = Some g) by reflexivity.
  assert (H2 : prices g = [(Number_of_Z 0, Fin 5)]) by reflexivity.
  split; [split; assumption|].
  destruct (renderGraph_single_sample (fun _ => "#") st g _ H1 H2)
    as (c & Ec & Ep & _).
  exists c. split; assumption.
Defined.

(** X18.  The label at the end of the line shows the last raw price of the
    series, whatever the downsampling kept. *)
Theorem renderGraph_final_label (show_finite : Q -> string) (st : State)
        (g : CryptoData) (p0 : number * number) :
  graphData st = Some g -> prices g <> [] ->
  (data_length (prices g) <= MAX_ARRAY_LENGTH)%Z ->
  exists c,
    renderGraph show_finite st = RenderChart c
    /\ finalLabel c = formatCurrency show_finite (snd (last (prices g) p0)).
Proof.
  intros Hg Hne Hn. destruct (prices g) as [|q0 rest] eqn:Hp; [contradiction|].
  destruct (renderGraph_chart show_finite st g q0 rest Hg Hp)
    as (sampled & path & _ & _ & _ & _ & c & Ec & _ & _ & _ & _ & _ & Efl & _).
  { rewrite Hp. exact Hn. }
  exists c. split; [exact Ec|]. rewrite Efl, Hp.
  f_equal. f_equal. clear. revert q0. induction rest as [|a l IH]; intros q0.
  - reflexivity.
  - change (last (q0 :: a :: l) q0) with (last (a :: l) q0).
    change (last (q0 :: a :: l) p0) with (last (a :: l) p0).
    destruct l as [|b l']; [reflexivity|].
    change (last (a :: b :: l') q0) with (last (b :: l') q0).
    change (last (a :: b :: l') p0) with (last (b :: l') p0).
    specialize (IH a).
    change (last (a :: b :: l') a) with (last (b :: l') a) in IH.
    change (last (a :: b :: l') p0) with (last (b :: l') p0) in IH.
    rewrite <- IH. clear. revert b. induction l' as [|c l IH]; intros b; [reflexivity|].
    change (last (b :: c :: l) q0) with (last (c :: l) q0).
    change (last (b :: c :: l) a) with (last (c :: l) a). apply IH.
Qed.

Lemma renderGraph_final_label_witness :
  let g := {| prices := [(Number_of_Z 0, Fin 5); (Number_of_Z 1, Fin 7)] |} in
  let st := {| startDate := None; endDate := None; cryptoName := "bitcoin";
               graphData := Some g;
               allCoins := []; suggestions := []; error := None;
               gridLineCount := 6 |} in
  (graphData st = Some g /\ prices g <> []
   /\ (data_length (prices g) <= MAX_ARRAY_LENGTH)%Z)
  /\ exists c, renderGraph (fun _ => "#") st = RenderChart c
               /\ finalLabel c = "$7.00".
Proof.
  intros g st.
  assert (H1 : graphData st = Some g) by reflexivity.
  assert (H2 : prices g <> []) by discriminate.
  assert (H3 : (data_length (prices g) <= MAX_ARRAY_LENGTH)%Z)
    by (vm_compute; discriminate).
  split; [repeat split; assumption|].
  destruct (renderGraph_final_label (fun _ => "#") st g (NaN, NaN) H1 H2 H3)
    as (c & Ec & El).
  exists c. split; [exact Ec|]. rewrite El. vm_compute. reflexivity.
Defined.

Lemma Qzero_false (q : Q) : ~ q == 0 -> Qzero q = false.
Proof.
  intros H. unfold Qzero. destruct (Qeq_bool q 0) eqn:E; [|reflexivity].
  apply Qeq_bool_iff in E. contradiction.
Qed.

(** The percentage of a ratio that is computed exactly. *)
Lemma percent_text_ratio (show_finite : Q -> string) (first final r : Q) :
  ~ first == 0 -> final == r * first ->
  percent_text show_finite (Fin first) (Fin final)
  = toFixed show_finite
      (num_mul (num_sub (Number_round r) (literal 1)) (literal 100)) 2 ++ "%".
Proof.
  intros H0 E. unfold percent_text, num_div. rewrite (Qzero_false first H0).
  rewrite (Number_round_ext (final / first) r); [reflexivity|].
  rewrite E. field. exact H0.
Qed.

(** The percentage from a zero start is not a number. *)
Lemma percent_text_zero_start (show_finite : Q -> string) (z q : Q) :
  z == 0 ->
  percent_text show_finite (Fin z) (Fin q)
  = if Qzero q then "NaN%" else if Qneg q then "-Infinity%" else "Infinity%".
Proof.
  intros Hz. unfold percent_text, num_div.
  assert (E0 : Qzero z = true) by (apply Qeq_bool_iff; exact Hz).
  rewrite E0. destruct (Qzero q); [reflexivity|].
  destruct (Qneg q); reflexivity.
Qed.

(** X19.  With a name typed and two prices or more, the header shows the
    percentage from the first raw price to the last.  For a non-zero first
    price the text is [((last / first - 1) * 100).toFixed(2)] followed by
    ["%"], in binary64 arithmetic: ["0.00%"] when the series ends where it
    started, ["100.00%"] when the price doubled, ["-50.00%"] when it halved.
    For a first price of zero the text is no number: ["NaN%"] when the last
    price is zero too, and otherwise ["Infinity%"] or ["-Infinity%"] (which
    of the two depends on the signs of the last price and of the zero). *)
Theorem renderGraph_percent_change (show_finite : Q -> string) (st : State)
        (g : CryptoData) (p0 : number * number) (rest : list (number * number))
        (first final : Q) :
  graphData st = Some g -> prices g = p0 :: rest -> rest <> [] ->
  cryptoName st <> "" ->
  (data_length (prices g) <= MAX_ARRAY_LENGTH)%Z ->
  snd p0 = Fin first -> snd (last rest p0) = Fin final ->
  exists c,
    renderGraph show_finite st = RenderChart c
    /\ (~ first == 0 ->
        percentChange c
        = Some (toFixed show_finite
                  (num_mul (num_sub (Number_round (final / first)) (literal 1))
                           (literal 100)) 2 ++ "%")
        /\ (final == first -> percentChange c = Some "0.00%")
        /\ (final == 2 * first -> percentChange c = Some "100.00%")
        /\ (final == first / 2 -> percentChange c = Some "-50.00%"))
    /\ (first == 0 ->
        (final == 0 -> percentChange c = Some "NaN%")
        /\ (~ final == 0 ->
            percentChange c = Some "Infinity%"
            \/ percentChange c = Some "-Infinity%")).
Proof.
  intros Hg Hp Hrest Hname Hn Hfirst Hfinal.
  destruct (renderGraph_chart show_finite st g p0 rest Hg Hp Hn)
    as (sampled & path & _ & _ & _ & _ & c & Ec & _ & _ & _ & _ & _ & _ & Epc).
  apply String.eqb_neq in Hname. rewrite Hname, Hp in Epc.
  destruct rest as [|p1 rest']; [contradiction|].
  change (last (p0 :: p1 :: rest') p0) with (last (p1 :: rest') p0) in Epc.
  cbn [List.length Nat.ltb Nat.leb] in Epc. rewrite Hfirst, Hfinal in Epc.
  exists c. split; [exact Ec|]. rewrite Epc. split.
  - intros H0. split; [|split; [|split]].
    + f_equal. apply percent_text_ratio; [exact H0|]. field. exact H0.
    + intros E. f_equal.
      rewrite (percent_text_ratio show_finite first final 1 H0)
        by (rewrite E; ring).
      vm_compute. reflexivity.
    + intros E. f_equal.
      rewrite (percent_text_ratio show_finite first final 2 H0) by exact E.
      vm_compute. reflexivity.
    + intros E. f_equal.
      rewrite (percent_text_ratio show_finite first final (1 # 2) H0)
        by (rewrite E; field).
      vm_compute. reflexivity.
  - intros E. rewrite (percent_text_zero_start show_finite first final E).
    split.
    + intros Ef. assert (Ez : Qzero final = true) by (apply Qeq_bool_iff; exact Ef).
      rewrite Ez. reflexivity.
    + intros Ef. rewrite (Qzero_false final Ef).
      destruct (Qneg final); [right|left]; reflexivity.
Qed.

Lemma renderGraph_percent_change_witness :
  let g := {| prices := [(Number_of_Z 0, Fin 5); (Number_of_Z 1, Fin 10)] |} in
  let st := {| startDate := None; endDate := None; cryptoName := "bitcoin";
               graphData := Some g;
               allCoins := []; suggestions := []; error := None;
               gridLineCount := 6 |} in
  (graphData st = Some g /\ cryptoName st <> ""
   /\ (data_length (prices g) <= MAX_ARRAY_LENGTH)%Z
   /\ ~ 5 == 0 /\ 10 == 2 * 5)
  /\ exists c, renderGraph (fun _ => "#") st = RenderChart c
               /\ percentChange c = Some "100.00%".
Proof.
  intros g st.
  assert (H1 : graphData st = Some g) by reflexivity.
  assert (H2 : cryptoName st <> "") by discriminate.
  assert (H3 : (data_length (prices g) <= MAX_ARRAY_LENGTH)%Z)
    by (vm_compute; discriminate).
  assert (H4 : ~ 5 == 0) by discriminate.
  assert (H5 : 10 == 2 * 5) by reflexivity.
  split; [repeat split; assumption|].
  destruct (renderGraph_percent_change (fun _ => "#") st g
              (Number_of_Z 0, Fin 5) [(Number_of_Z 1, Fin 10)] 5 10
              H1 eq_refl ltac:(discriminate) H2 H3 eq_refl eq_refl)
    as (c & Ec & Hnz & _).
  exists c. split; [exact Ec|].
  exact (proj1 (proj2 (proj2 (Hnz H4))) H5).
Defined.

Lemma renderGraph_points (show_finite : Q -> string) (st : State) (c : Chart) :
  renderGraph show_finite st = RenderChart c ->
  points c
  = map_indexed (fun price i =>
                   {| x := point_x (xScale c) i;
                      y := point_y (yMin c) (yScale c) (snd price) |})
                0%Z (sampledPrices c).
Proof.
  unfold renderGraph. intros H.
  destruct (graphData st) as [g|]; [|discriminate].
  destruct (prices g) as [|p0 rest]; [discriminate|].
  destruct (defined_all _) as [sampled|]; [|discriminate].
  cbv zeta in H. destruct (createSmoothPath _ _) as [path|]; [|discriminate].
  apply (f_equal (fun r => match r with RenderChart c' => c' | _ => c end)) in H.
  subst c. reflexivity.
Qed.

(** X20.  Whenever the vertical scale is finite, a sample at the minimum
    price is drawn exactly on the baseline [y = 410]. *)
Theorem renderGraph_lowest_on_baseline (show_finite : Q -> string) (st : State)
        (c : Chart) (k : nat) (p : number * number) (a s : Q) :
  renderGraph show_finite st = RenderChart c ->
  yMin c = Fin a -> yScale c = Fin s ->
  nth_error (sampledPrices c) k = Some p -> snd p = Fin a ->
  exists pt, nth_error (points c) k = Some pt /\ y pt = Fin 410.
Proof.
  intros H Hmin Hscale Hk Hp.
  rewrite (renderGraph_points _ _ _ H), map_indexed_nth_error, Hk.
  cbn [option_map]. eexists. split; [reflexivity|]. cbn [y].
  rewrite Hmin, Hscale, Hp. apply baseline_point_y.
Qed.

Lemma renderGraph_lowest_on_baseline_witness :
  let g := {| prices := [(Number_of_Z 0, Fin 5); (Number_of_Z 1, Fin 7)] |} in
  let st := {| startDate := None; endDate := None; cryptoName := "bitcoin";
               graphData := Some g;
               allCoins := []; suggestions := []; error := None;
               gridLineCount := 6 |} in
  exists c pt, renderGraph (fun _ => "#") st = RenderChart c
               /\ nth_error (points c) 0 = Some pt /\ y pt = Fin 410.
Proof.
  intros g st.
  assert (E : exists c,
             renderGraph (fun _ => "#") st = RenderChart c
             /\ yMin c = Fin 5 /\ yScale c = Fin 175
             /\ nth_error (sampledPrices c) 0 = Some (Number_of_Z 0, Fin 5)).
  { eexists. split; [vm_compute; reflexivity|].
    repeat split; vm_compute; reflexivity. }
  destruct E as (c & Ec & E1 & E2 & E3).
  destruct (renderGraph_lowest_on_baseline (fun _ => "#") st c 0 _ 5 175
              Ec E1 E2 E3 eq_refl) as (pt & Ept & Ey).
  exists c, pt. repeat split; assumption.
Defined.

(** X21.  With two or more grid lines, the lowest price marker is the
    minimum price itself and lies on the baseline [y = 410]. *)
Theorem price_points_bottom_line (a b d s : Q) (k : Z) (dflt : PricePoint.t) :
  (2 <= k)%Z -> binary64 a -> num_sub (Fin b) (Fin a) = Fin d ->
  List.length (price_points (Fin a) (Fin b) (Fin s) k) = Z.to_nat k
  /\ last (price_points (Fin a) (Fin b) (Fin s) k) dflt
     = {| PricePoint.value := Fin a; PricePoint.y := Fin 410 |}.
Proof.
  intros Hk Ha Hd. unfold price_points. split.
  - rewrite length_map, Zrange_length. rewrite Z.sub_0_r. reflexivity.
  - unfold Zrange. rewrite Z.sub_0_r.
    replace (Z.to_nat k) with (S (Z.to_nat (k - 1))) by lia.
    rewrite seq_S, !map_app. cbn [map]. rewrite last_last.
    rewrite Hd. cbn [Nat.add].
    replace (k - 1 - (0 + Z.of_nat (Z.to_nat (k - 1))))%Z with 0%Z by lia.
    assert (Em : num_mul (Fin d) (Number_of_Z 0) = Fin 0).
    { unfold num_mul, Number_of_Z. apply Number_round_zero. ring. }
    assert (Ed : num_div (Fin 0) (Number_of_Z (k - 1)) = Fin 0).
    { unfold num_div, Number_of_Z.
      destruct (Qzero (inject_Z (k - 1))) eqn:E.
      - apply Qeq_bool_iff in E. unfold Qeq in E. cbn [Qnum Qden inject_Z] in E. lia.
      - apply Number_round_zero. apply Qeq_bool_neq in E. field. exact E. }
    rewrite Em, Ed, (num_add_zero a Ha), baseline_point_y. reflexivity.
Qed.

Lemma price_points_bottom_line_witness :
  ((2 <= 6)%Z /\ binary64 5 /\ num_sub (Fin 7) (Fin 5) = Fin 2)
  /\ List.length (price_points (Fin 5) (Fin 7) (Fin 175) 6) = 6%nat.
Proof.
  assert (H1 : (2 <= 6)%Z) by lia.
  assert (H2 : binary64 5) by (vm_compute; reflexivity).
  assert (H3 : num_sub (Fin 7) (Fin 5) = Fin 2) by (vm_compute; reflexivity).
  split; [repeat split; assumption|].
  exact (proj1 (price_points_bottom_line 5 7 2 175 6
                  {| PricePoint.value := NaN; PricePoint.y := NaN |} H1 H2 H3)).
Defined.

(** ** Currency formatting *)

Open Scope string_scope.

(** The text of [toFixed] depends on the sign and on the integer nearest to
    [|v| * 10^f] only. *)
Lemma toFixed_same_digits (show_finite : Q -> string) (q q' : Q) (f : nat) :
  (0 <= q)%Q -> (q < inject_Z (10 ^ 21))%Q ->
  (0 <= q')%Q -> (q' < inject_Z (10 ^ 21))%Q ->
  Qfloor (q * inject_Z (10 ^ Z.of_nat f) + (1 # 2))
  = Qfloor (q' * inject_Z (10 ^ Z.of_nat f) + (1 # 2)) ->
  toFixed show_finite (Fin q) f = toFixed show_finite (Fin q') f.
Proof.
  intros H0 H1 H0' H1' E. unfold toFixed.
  assert (En : Qneg q = false) by (unfold Qneg; rewrite Qle_bool_true; auto).
  assert (En' : Qneg q' = false) by (unfold Qneg; rewrite Qle_bool_true; auto).
  assert (Ea : (Qabs q == q)%Q) by (apply Qabs_pos; exact H0).
  assert (Ea' : (Qabs q' == q')%Q) by (apply Qabs_pos; exact H0').
  rewrite En, En'.
  rewrite (Qle_bool_false (inject_Z (10 ^ 21)) (Qabs q)) by (rewrite Ea; exact H1).
  rewrite (Qle_bool_false (inject_Z (10 ^ 21)) (Qabs q')) by (rewrite Ea'; exact H1').
  assert (Ef : Qfloor (Qabs q * inject_Z (10 ^ Z.of_nat f) + (1 # 2))
               = Qfloor (Qabs q' * inject_Z (10 ^ Z.of_nat f) + (1 # 2))).
  { rewrite (Qfloor_comp _ (q * inject_Z (10 ^ Z.of_nat f) + (1 # 2)))
      by (rewrite Ea; reflexivity).
    rewrite (Qfloor_comp (Qabs q' * _ + _) (q' * inject_Z (10 ^ Z.of_nat f) + (1 # 2)))
      by (rewrite Ea'; reflexivity).
    exact E. }
  rewrite Ef. reflexivity.
Qed.

Lemma toFixed_negative (show_finite : Q -> string) (q : Q) (f : nat) :
  (q < 0)%Q -> (- inject_Z (10 ^ 21) < q)%Q ->
  toFixed show_finite (Fin q) f = "-" ++ toFixed show_finite (Fin (- q)) f.
Proof.
  intros H0 H1. unfold toFixed.
  assert (En : Qneg q = true) by (unfold Qneg; rewrite Qle_bool_false; auto).
  assert (En' : Qneg (- q) = false)
    by (unfold Qneg; rewrite Qle_bool_true; [reflexivity|lra]).
  assert (Ea : (Qabs q == - q)%Q) by (apply Qabs_neg; lra).
  assert (Ea' : (Qabs (- q) == - q)%Q) by (apply Qabs_pos; lra).
  rewrite En, En'.
  rewrite (Qle_bool_false (inject_Z (10 ^ 21)) (Qabs q)) by (rewrite Ea; lra).
  rewrite (Qle_bool_false (inject_Z (10 ^ 21)) (Qabs (- q))) by (rewrite Ea'; lra).
  assert (Ef : Qfloor (Qabs q * inject_Z (10 ^ Z.of_nat f) + (1 # 2))
               = Qfloor (Qabs (- q) * inject_Z (10 ^ Z.of_nat f) + (1 # 2))).
  { apply Qfloor_comp. rewrite Ea, Ea'. reflexivity. }
  rewrite Ef. reflexivity.
Qed.

Lemma formatCurrency_tiers (show_finite : Q -> string) (q : Q) :
  formatCurrency show_finite (Fin q)
  = if Qle_bool 1000000 q
    then "$" ++ toFixed show_finite (num_div (Fin q) (Fin 1000000)) 2 ++ "M"
    else if Qle_bool 10000 q then "$" ++ toLocaleString (Math_round (Fin q))
    else if Qle_bool 1 q then "$" ++ toFixed show_finite (Fin q) 2
    else "$" ++ toFixed show_finite (Fin q) 5.
Proof.
  destruct literal_exact_values as (L6 & L4 & L1).
  unfold formatCurrency. rewrite L6, L4, L1. reflexivity.
Qed.

(** X22.  The magnitude is tested before the value is rounded, so a value
    just under a threshold is printed in the lower format with the
    threshold's digits: ["$1,000,000"] rather than ["$1.00M"], ["$10000.00"] rather than
    ["$10,000"], ["$1.00000"] rather than ["$1.00"]. *)
Theorem formatCurrency_just_below_threshold (show_finite : Q -> string) (q : Q) :
  (((9999995 # 10) <= q)%Q -> (q < 1000000)%Q ->
   formatCurrency show_finite (Fin q) = "$1,000,000")
  /\ (((9999995 # 1000) <= q)%Q -> (q < 10000)%Q ->
      formatCurrency show_finite (Fin q) = "$10000.00")
  /\ (((999995 # 1000000) <= q)%Q -> (q < 1)%Q ->
      formatCurrency show_finite (Fin q) = "$1.00000").
Proof.
  rewrite formatCurrency_tiers. split; [|split]; intros H1 H2.
  - rewrite (Qle_bool_false 1000000 q) by lra.
    rewrite (Qle_bool_true 10000 q) by lra.
    cbn [Math_round].
    rewrite (Qfloor_unique (q + (1 # 2)) 1000000)
      by (change (inject_Z 1000000) with 1000000%Q; lra).
    vm_compute. reflexivity.
  - rewrite (Qle_bool_false 1000000 q) by lra.
    rewrite (Qle_bool_false 10000 q) by lra.
    rewrite (Qle_bool_true 1 q) by lra.
    rewrite (toFixed_same_digits show_finite q 10000 2).
    + vm_compute. reflexivity.
    + lra.
    + assert (B : (10000 < inject_Z (10 ^ 21))%Q) by reflexivity. lra.
    + discriminate.
    + reflexivity.
    + change (Qfloor (10000 * inject_Z (10 ^ Z.of_nat 2) + (1 # 2))) with 1000000%Z.
      apply Qfloor_unique;
        change (inject_Z (10 ^ Z.of_nat 2)) with 100%Q;
        change (inject_Z 1000000) with 1000000%Q; lra.
  - rewrite (Qle_bool_false 1000000 q) by lra.
    rewrite (Qle_bool_false 10000 q) by lra.
    rewrite (Qle_bool_false 1 q) by lra.
    rewrite (toFixed_same_digits show_finite q 1 5).
    + vm_compute. reflexivity.
    + lra.
    + assert (B : (1 < inject_Z (10 ^ 21))%Q) by reflexivity. lra.
    + discriminate.
    + reflexivity.
    + change (Qfloor (1 * inject_Z (10 ^ Z.of_nat 5) + (1 # 2))) with 100000%Z.
      apply Qfloor_unique;
        change (inject_Z (10 ^ Z.of_nat 5)) with 100000%Q;
        change (inject_Z 100000) with 100000%Q; lra.
Qed.

Lemma formatCurrency_just_below_threshold_witness :
  (((9999995 # 10) <= (1999999 # 2))%Q /\ ((1999999 # 2) < 1000000)%Q
   /\ ((9999995 # 1000) <= (2559999 # 256))%Q /\ ((2559999 # 256) < 10000)%Q
   /\ ((999995 # 1000000) <= (1048575 # 1048576))%Q /\ ((1048575 # 1048576) < 1)%Q)
  /\ formatCurrency (fun _ => "#") (Fin (1999999 # 2)) = "$1,000,000"
  /\ formatCurrency (fun _ => "#") (Fin (2559999 # 256)) = "$10000.00"
  /\ formatCurrency (fun _ => "#") (Fin (1048575 # 1048576)) = "$1.00000".
Proof.
  assert (H1 : ((9999995 # 10) <= (1999999 # 2))%Q) by discriminate.
  assert (H2 : ((1999999 # 2) < 1000000)%Q) by reflexivity.
  assert (H3 : ((9999995 # 1000) <= (2559999 # 256))%Q) by discriminate.
  assert (H4 : ((2559999 # 256) < 10000)%Q) by reflexivity.
  assert (H5 : ((999995 # 1000000) <= (1048575 # 1048576))%Q) by discriminate.
  assert (H6 : ((1048575 # 1048576) < 1)%Q) by reflexivity.
  split; [repeat split; assumption|].
  split; [|split].
  - exact (proj1 (formatCurrency_just_below_threshold (fun _ => "#") _) H1 H2).
  - exact (proj1 (proj2 (formatCurrency_just_below_threshold (fun _ => "#") _)) H3 H4).
  - exact (proj2 (proj2 (formatCurrency_just_below_threshold (fun _ => "#") _)) H5 H6).
Defined.

(** X23.  A negative value always takes the last branch: whatever its
    magnitude (above [-1e21], where [toFixed] leaves fixed notation) it is
    printed with five decimals after ["$-"], never grouped and never in
    millions. *)
Theorem formatCurrency_negative (show_finite : Q -> string) (q : Q) :
  (q < 0)%Q -> (- inject_Z (10 ^ 21) < q)%Q ->
  formatCurrency show_finite (Fin q)
  = "$-" ++ toFixed show_finite (Fin (- q)) 5
  /\ fixed_decimals (- q) 5 (toFixed show_finite (Fin (- q)) 5).
Proof.
  intros H0 H1. rewrite formatCurrency_tiers.
  rewrite (Qle_bool_false 1000000 q) by lra.
  rewrite (Qle_bool_false 10000 q) by lra.
  rewrite (Qle_bool_false 1 q) by lra.
  rewrite (toFixed_negative show_finite q 5 H0 H1). split; [reflexivity|].
  apply toFixed_fraction_digits; [lra|lra|lia].
Qed.

Lemma formatCurrency_negative_witness :
  ((- (2000000) < 0)%Q /\ (- inject_Z (10 ^ 21) < - (2000000))%Q)
  /\ formatCurrency (fun _ => "#") (Fin (- (2000000))) = "$-2000000.00000".
Proof.
  assert (H1 : (- (2000000) < 0)%Q) by reflexivity.
  assert (H2 : (- inject_Z (10 ^ 21) < - (2000000))%Q) by reflexivity.
  split; [split; assumption|].
  rewrite (proj1 (formatCurrency_negative (fun _ => "#") _ H1 H2)).
  vm_compute. reflexivity.
Defined.

(** ** The date ticks of the first chart *)

Open Scope Q_scope.
Open Scope string_scope.

(** A dyadic value with a significand below [2^53] is computed exactly. *)
Lemma Number_round_exact (q : Q) (m e : Z) :
  (0 <= m < 2 ^ 53)%Z -> (emin <= e <= 0)%Z -> q == inject_Z m * pow2 e ->
  exists r, Number_round q = Fin r /\ r == q.
Proof.
  intros Hm He Eq. destruct (Z.eq_dec m 0) as [->|Hnz].
  - exists 0. split; [apply Number_round_zero; rewrite Eq; ring|].
    rewrite Eq. ring.
  - pose proof (pow2_pos e) as Pe.
    assert (Hm0 : 0 < inject_Z m)
      by (change 0 with (inject_Z 0); rewrite <- Zlt_Qlt; lia).
    assert (Hq : 0 < q) by (rewrite Eq; apply Qmult_lt_0_compat; assumption).
    assert (Ef : fl q == q).
    { rewrite (fl_comp q (inject_Z m * pow2 e) Hq Eq).
      rewrite fl_repr by lia. symmetry. exact Eq. }
    exists (fl q). split; [|exact Ef].
    apply (Number_round_below q (2 ^ 53)); [rewrite Ef; lra| |lia].
    rewrite Ef, Eq.
    assert (P1 : pow2 e <= 1).
    { change 1 with (pow2 0). apply pow2_mono. lia. }
    assert (Hm1 : inject_Z m < inject_Z (2 ^ 53)) by (rewrite <- Zlt_Qlt; lia).
    set (M := inject_Z m) in *. set (P := pow2 e) in *.
    set (B := inject_Z (2 ^ 53)) in *. clearbody M P B. nra.
Qed.

Lemma xTickIdx_exact (n i : Z) :
  (1 <= n <= MAX_ARRAY_LENGTH)%Z -> (0 <= i <= 4)%Z ->
  xTickIdx n i = Number_of_Z ((i * (n - 1) + 2) / 4).
Proof.
  intros Hn Hi. unfold xTickIdx, xTicks, Number_of_Z, MAX_ARRAY_LENGTH in *.
  set (k := (i * (n - 1))%Z).
  assert (Hk : (0 <= k < 2 ^ 53)%Z) by (unfold k; nia).
  unfold num_mul.
  destruct (Number_round_exact (inject_Z i * inject_Z (n - 1)) k 0) as (r1 & E1 & Q1).
  { exact Hk. } { unfold emin. lia. }
  { unfold k. rewrite inject_Z_mult. change (pow2 0) with 1. ring. }
  rewrite E1. unfold num_div. change (Qzero (inject_Z (5 - 1))) with false. cbv iota.
  destruct (Number_round_exact (r1 / inject_Z (5 - 1)) k (-2)) as (r2 & E2 & Q2).
  { exact Hk. } { unfold emin. lia. }
  { rewrite Q1. unfold k. rewrite inject_Z_mult.
    change (pow2 (-2)) with (1 # 4). change (inject_Z (5 - 1)) with 4. field. }
  rewrite E2. cbn [Math_round]. do 2 f_equal.
  rewrite (Qfloor_comp (r2 + (1 # 2)) ((k + 2) # 4)).
  - reflexivity.
  - rewrite Q2, Q1. unfold k.
    change (inject_Z (5 - 1)) with 4.
    rewrite (Qmake_Qdiv (i * (n - 1) + 2) 4), inject_Z_plus, inject_Z_mult.
    change (inject_Z (Z.pos 4)) with 4. change (inject_Z 2) with 2. field.
Qed.

(** X24.  The five date ticks are positions of the series: they run from
    the first sample to the last without going back, each is the integer
    nearest to [i * (n - 1) / 4], and reading the series there never yields
    [undefined]. *)
Theorem xTickIdxs_in_series {A : Type} (data : list A) :
  let n := data_length data in
  (1 <= n <= MAX_ARRAY_LENGTH)%Z ->
  exists idxs : list Z,
    xTickIdxs n = map Number_of_Z idxs
    /\ idxs = map (fun i => ((i * (n - 1) + 2) / 4)%Z) [0; 1; 2; 3; 4]%Z
    /\ hd_error idxs = Some 0%Z /\ last idxs 0%Z = (n - 1)%Z
    /\ StronglySorted Z.le idxs
    /\ Forall (fun j => exists a, array_get data j = Elem a) idxs.
Proof.
  intros n Hn.
  exists (map (fun i => ((i * (n - 1) + 2) / 4)%Z) [0; 1; 2; 3; 4]%Z).
  split; [|split; [reflexivity|]].
  - unfold xTickIdxs. change (Zrange 0 xTicks) with [0; 1; 2; 3; 4]%Z.
    rewrite map_map. cbn [map].
    rewrite !(xTickIdx_exact n) by lia. reflexivity.
  - cbn [map hd_error last].
    assert (B0 : ((0 * (n - 1) + 2) / 4 = 0)%Z) by reflexivity.
    assert (B4 : ((4 * (n - 1) + 2) / 4 = n - 1)%Z).
    { symmetry. apply Z.div_unique with (r := 2%Z); lia. }
    assert (B1 : (0 <= (1 * (n - 1) + 2) / 4 <= (2 * (n - 1) + 2) / 4)%Z).
    { split; [apply Z.div_pos; lia|apply Z.div_le_mono; lia]. }
    assert (B2 : ((2 * (n - 1) + 2) / 4 <= (3 * (n - 1) + 2) / 4)%Z)
      by (apply Z.div_le_mono; lia).
    assert (B3 : ((3 * (n - 1) + 2) / 4 <= n - 1)%Z).
    { rewrite <- B4. apply Z.div_le_mono; lia. }
    rewrite B0, B4.
    set (a := ((1 * (n - 1) + 2) / 4)%Z) in *.
    set (b := ((2 * (n - 1) + 2) / 4)%Z) in *.
    set (c := ((3 * (n - 1) + 2) / 4)%Z) in *.
    split; [reflexivity|]. split; [reflexivity|]. split.
    + repeat constructor; lia.
    + assert (G : forall j, (0 <= j <= n - 1)%Z -> exists v, array_get data j = Elem v).
      { intros j Hj. destruct (array_get_Elem data j) as (v & _ & Ev).
        - unfold n, data_length in Hj. lia.
        - exists v. exact Ev. }
      repeat constructor; apply G; lia.
Qed.

Lemma xTickIdxs_in_series_witness :
  (1 <= data_length (seq 0 10) <= MAX_ARRAY_LENGTH)%Z
  /\ exists idxs, xTickIdxs (data_length (seq 0 10)) = map Number_of_Z idxs
                  /\ idxs = [0; 2; 5; 7; 9]%Z.
Proof.
  assert (H : (1 <= data_length (seq 0 10) <= MAX_ARRAY_LENGTH)%Z)
    by (vm_compute; split; discriminate).
  split; [exact H|].
  destruct (xTickIdxs_in_series (seq 0 10) H) as (idxs & E1 & E2 & _).
  exists idxs. split; [exact E1|]. rewrite E2. reflexivity.
Defined.

